(** * castv2-sender: the connection node and the sender node

    A shallow embedding of [castv2-sender.js].  The file has two Node-RED
    node types: [CastV2ConnectionNode], which owns the transport client,
    the connect / disconnect / reconnect handlers and the registry of
    sender nodes, and [CastV2SenderNode], which classifies a command and
    routes it to the connection node, to a launched application or to the
    adapter of the joined application.

    Objects are kept in an explicit world: the fields of the connection
    node, the store of sender objects (the registry holds their ids, so a
    sender reached through the registry and the sender reached by its own
    handlers are one object), the transport clients created so far with
    their pending promises and armed one-shot listeners, the timers, the
    continuations still owed by the volume requests of a client, and a
    trace of every call made on a collaborator (transport client, sender
    status / send, completion callback).

    Numbers are rationals: a JavaScript number is a double, and the
    division [volume / 100] is exact here. *)

From Stdlib Require Import QArith ZArith.
From stdpp Require Import base gmap strings list.

Set Default Proof Using "Type".
Local Open Scope string_scope.
Local Open Scope list_scope.

(** ** Values exchanged with the collaborators *)

(** [new Error(message)] and the TypeError of a property read on null. *)
Inductive JsError :=
  | Error (message : string)
  | TypeError.

(** A cast application class; only its static [APP_ID] is read. *)
Record CastApp := { APP_ID : string }.

(** An entry of [status.applications]. *)
Record Session := { appId : string; sessionId : string }.

(** The platform status; [applications] may be absent. *)
Record PlatformStatus := { applications : option (list Session) }.

(** The media status of a receiver, with its bitmask. *)
Record MediaStatus := { supportedMediaCommands : Z }.

(** What the transport hands back from [launch] or [join]: the application
    instance bound to a session. *)
Record Receiver := { rcv_app : CastApp; rcv_session : Session }.

Inductive Adapter := DefaultMediaReceiverAdapter | YouTubeReceiverAdapter.

(** The argument of [node.status(...)]. *)
Record Status := { fill : string; shape : string; text : string }.

Inductive Msg :=
  | platform_msg (status : option PlatformStatus)
  | payload_msg (status : option MediaStatus).

(** The command object [{ type, app, volume, time }]. *)
Record Command := {
  type : string;
  app : option string;
  volume : option Q;
  time : option Q
}.

(** The argument of [setVolume]. *)
Inductive VolumeSpec :=
  | muted (b : bool)
  | level (q : Q).

(** Methods of the transport client used by the connection node. *)
Inductive ClientCall :=
  | client_connect
  | client_close
  | client_getStatus
  | client_getVolume
  | client_setVolume (spec : VolumeSpec)
  | client_stop (r : Receiver)
  | client_launch (castV2App : option CastApp)
  | client_join (activeSession : Session) (castv2App : CastApp).

(** Methods of a joined receiver used by the sender node. *)
Inductive ReceiverCall :=
  | receiver_getStatus
  | receiver_pause
  | receiver_play
  | receiver_seek (t : Q)
  | receiver_stop.

(** Everything the two nodes do to the outside, in order. *)
Inductive Event :=
  | EvNewClient (c : nat)
  | EvClient (c : nat) (call : ClientCall)
  | EvSetTimeout (t : nat)
  | EvClearTimeout (t : nat)
  | EvStatus (id : string) (status : Status)
  | EvSend (id : string) (msg : Msg)
  | EvDone
  | EvUncaught (e : JsError).

(** ** JavaScript truthiness and comparisons on an optional number *)

(** [x] in a condition: undefined and 0 are falsy. *)
Definition truthy (x : option Q) : bool :=
  match x with
  | Some q => negb (Qeq_bool q 0)
  | None => false
  end.

(** [x >= lo]; a comparison with undefined is false. *)
Definition js_ge (x : option Q) (lo : Q) : bool :=
  match x with
  | Some q => Qle_bool lo q
  | None => false
  end.

(** [x <= hi]. *)
Definition js_le (x : option Q) (hi : Q) : bool :=
  match x with
  | Some q => Qle_bool q hi
  | None => false
  end.

(** [array.includes(s)] on an array of strings. *)
Definition includes (l : list string) (s : string) : bool :=
  existsb (String.eqb s) l.

(** ** The objects *)

(** The fields of a [CastV2SenderNode]. *)
Record Sender := {
  supportedApplications : list CastApp;
  receiver : option Receiver;
  adapter : option Adapter
}.

(** The fields of the [CastV2ConnectionNode]. *)
Record Node := {
  connected : bool;
  connecting : bool;
  closing : bool;
  registeredNodes : gset string;
  platformStatus : option PlatformStatus;
  client : option nat;
  reconnectTimeOut : option nat
}.

(** A transport client as the connection node left it: whether its
    [connectAsync] promise and its [getStatusAsync] promise of the connect
    chain are still to settle, and whether the [once] listeners for
    "error" and "close" are still armed. *)
Record ClientState := {
  connect_pending : bool;
  status_pending : bool;
  error_armed : bool;
  close_armed : bool
}.

(** [joins] holds the join promises still to settle, [chains] the client
    of every [getVolumeAsync] / [setVolumeAsync] call whose
    [.then(volume => node.client.getStatusAsync())] has not run yet. *)
Record World := {
  node : Node;
  senders : gmap string Sender;
  clients : list ClientState;
  timers : list bool;
  joins : list (string * Session * CastApp);
  chains : list nat;
  trace : list Event
}.

(** A throwing, state-changing function: the completion and the world at
    the point of return or throw. *)
Inductive Completion (A : Type) :=
  | Return (a : A)
  | Throw (e : JsError).
Arguments Return {A} a.
Arguments Throw {A} e.

Definition M (A : Type) : Type := World -> Completion A * World.

Definition ret {A} (a : A) : M A := fun w => (Return a, w).
Definition throw {A} (e : JsError) : M A := fun w => (Throw e, w).
Definition bind {A B} (m : M A) (k : A -> M B) : M B :=
  fun w => match m w with
           | (Return a, w') => k a w'
           | (Throw e, w') => (Throw e, w')
           end.
Definition lift (f : World -> World) : M unit := fun w => (Return tt, f w).

(** [try { m } catch (e) { h e }] *)
Definition try_catch (m : M unit) (h : JsError -> World -> World) : World -> World :=
  fun w => match m w with
           | (Return _, w') => w'
           | (Throw e, w') => h e w'
           end.

Notation "m ;;; k" := (bind m (fun _ => k))
  (at level 100, right associativity).

(** A [for (id in ...)] loop whose body may throw. *)
Fixpoint for_each (body : string -> M unit) (ids : list string) : M unit :=
  match ids with
  | [] => ret tt
  | id :: rest => body id ;;; for_each body rest
  end.

(** ** Field updates *)

Definition with_flags (cd cg : bool) (n : Node) : Node :=
  {| connected := cd; connecting := cg; closing := closing n;
     registeredNodes := registeredNodes n; platformStatus := platformStatus n;
     client := client n; reconnectTimeOut := reconnectTimeOut n |}.

Definition with_closing (b : bool) (n : Node) : Node :=
  {| connected := connected n; connecting := connecting n; closing := b;
     registeredNodes := registeredNodes n; platformStatus := platformStatus n;
     client := client n; reconnectTimeOut := reconnectTimeOut n |}.

Definition with_registeredNodes (r : gset string) (n : Node) : Node :=
  {| connected := connected n; connecting := connecting n; closing := closing n;
     registeredNodes := r; platformStatus := platformStatus n;
     client := client n; reconnectTimeOut := reconnectTimeOut n |}.

Definition with_platformStatus (s : option PlatformStatus) (n : Node) : Node :=
  {| connected := connected n; connecting := connecting n; closing := closing n;
     registeredNodes := registeredNodes n; platformStatus := s;
     client := client n; reconnectTimeOut := reconnectTimeOut n |}.

Definition with_client (c : option nat) (n : Node) : Node :=
  {| connected := connected n; connecting := connecting n; closing := closing n;
     registeredNodes := registeredNodes n; platformStatus := platformStatus n;
     client := c; reconnectTimeOut := reconnectTimeOut n |}.

Definition with_reconnectTimeOut (t : option nat) (n : Node) : Node :=
  {| connected := connected n; connecting := connecting n; closing := closing n;
     registeredNodes := registeredNodes n; platformStatus := platformStatus n;
     client := client n; reconnectTimeOut := t |}.

Definition on_node (f : Node -> Node) (w : World) : World :=
  {| node := f (node w); senders := senders w; clients := clients w;
     timers := timers w; joins := joins w;
     chains := chains w; trace := trace w |}.

Definition on_senders (f : gmap string Sender -> gmap string Sender) (w : World) : World :=
  {| node := node w; senders := f (senders w); clients := clients w;
     timers := timers w; joins := joins w;
     chains := chains w; trace := trace w |}.

Definition on_clients (f : list ClientState -> list ClientState) (w : World) : World :=
  {| node := node w; senders := senders w; clients := f (clients w);
     timers := timers w; joins := joins w;
     chains := chains w; trace := trace w |}.

Definition on_timers (f : list bool -> list bool) (w : World) : World :=
  {| node := node w; senders := senders w; clients := clients w;
     timers := f (timers w); joins := joins w;
     chains := chains w; trace := trace w |}.

Definition on_joins (f : list (string * Session * CastApp) -> list (string * Session * CastApp))
    (w : World) : World :=
  {| node := node w; senders := senders w; clients := clients w;
     timers := timers w; joins := f (joins w);
     chains := chains w; trace := trace w |}.

Definition on_chains (f : list nat -> list nat) (w : World) : World :=
  {| node := node w; senders := senders w; clients := clients w;
     timers := timers w; joins := joins w;
     chains := f (chains w); trace := trace w |}.

Definition emit (e : Event) (w : World) : World :=
  {| node := node w; senders := senders w; clients := clients w;
     timers := timers w; joins := joins w;
     chains := chains w; trace := trace w ++ [e] |}.

Definition emits (es : list Event) (w : World) : World :=
  {| node := node w; senders := senders w; clients := clients w;
     timers := timers w; joins := joins w;
     chains := chains w; trace := trace w ++ es |}.

(** Settle or disarm one aspect of client [c]. *)
Definition with_connect_pending (b : bool) (s : ClientState) : ClientState :=
  {| connect_pending := b; status_pending := status_pending s;
     error_armed := error_armed s; close_armed := close_armed s |}.
Definition with_status_pending (b : bool) (s : ClientState) : ClientState :=
  {| connect_pending := connect_pending s; status_pending := b;
     error_armed := error_armed s; close_armed := close_armed s |}.
Definition with_error_armed (b : bool) (s : ClientState) : ClientState :=
  {| connect_pending := connect_pending s; status_pending := status_pending s;
     error_armed := b; close_armed := close_armed s |}.
Definition with_close_armed (b : bool) (s : ClientState) : ClientState :=
  {| connect_pending := connect_pending s; status_pending := status_pending s;
     error_armed := error_armed s; close_armed := b |}.

Definition on_client (c : nat) (f : ClientState -> ClientState) (w : World) : World :=
  on_clients (alter f c) w.

Definition client_is (p : ClientState -> bool) (c : nat) (w : World) : bool :=
  from_option p false (clients w !! c).

(** ** Collaborators outside this file

    The application classes come from [castv2-client] and [./lib]; only
    their [APP_ID] is read here, so they are parameters.  The adapters'
    [initReceiver] (in [./lib], not part of this file) returns the
    receiver the sender keeps.  [close_throws c] tells whether [close()]
    of transport client [c] raises. *)
Class Collaborators := {
  DefaultMediaReceiver : CastApp;
  YouTubeReceiver : CastApp;
  adapter_initReceiver : Adapter -> Receiver -> Receiver;
  close_throws : nat -> bool
}.

Definition st_disconnected : Status :=
  {| fill := "red"; shape := "ring"; text := "disconnected" |}.
Definition st_connecting : Status :=
  {| fill := "yellow"; shape := "ring"; text := "connecting" |}.
Definition st_connected : Status :=
  {| fill := "green"; shape := "ring"; text := "connected" |}.
Definition st_joined : Status :=
  {| fill := "green"; shape := "dot"; text := "joined" |}.

Definition platformCommands : list string :=
  ["CLOSE"; "GET_VOLUME"; "GET_CAST_STATUS"; "MUTE"; "UNMUTE"; "VOLUME"].

Definition mediaCommands : list string :=
  ["GET_STATUS"; "PAUSE"; "PLAY"; "SEEK"; "STOP"].

(** The state of a connection node just constructed, with no sender
    object, client or timer yet. *)
Definition init : World :=
  {| node := {| connected := false; connecting := false; closing := false;
                registeredNodes := ∅; platformStatus := None;
                client := None; reconnectTimeOut := None |};
     senders := ∅; clients := []; timers := []; joins := []; chains := []; trace := [] |}.

(** ** CastV2ConnectionNode *)

Section ConnectionNode.
Context {lib : Collaborators}.

(** [node.client.method(...)]: reading a method of a null client throws. *)
Definition call_client (call : ClientCall) : M unit := fun w =>
  match client (node w) with
  | Some c => (Return tt, emit (EvClient c call) w)
  | None => (Throw TypeError, w)
  end.

(** [node.client.method(...).then(volume => node.client.getStatusAsync())]:
    the call is placed and its continuation is owed by that client. *)
Definition call_client_then (call : ClientCall) : M unit := fun w =>
  match client (node w) with
  | Some c => (Return tt, on_chains (fun l => l ++ [c]) (emit (EvClient c call) w))
  | None => (Throw TypeError, w)
  end.

(** The continuation [volume => node.client.getStatusAsync()], run when the
    volume request has answered: it reads [node.client] as it is by then,
    without a test of [connected]. *)
Definition volume_fulfilled : M unit := call_client client_getStatus.

Definition launchAsync (castV2App : option CastApp) : M unit := fun w =>
  if negb (connected (node w)) then (Throw (Error "Not connected"), w)
  else call_client (client_launch castV2App) w.

Definition joinSessionAsync (activeSession : Session) (castv2App : CastApp) : M unit :=
  fun w =>
  if negb (connected (node w)) then (Throw (Error "Not connected"), w)
  else call_client (client_join activeSession castv2App) w.

Definition setStatusOfRegisteredNodes (status : Status) (w : World) : World :=
  foldl (fun w id => emit (EvStatus id status) w) w
        (elements (registeredNodes (node w))).

Definition sendToRegisteredNodes (msg : Msg) (w : World) : World :=
  foldl (fun w id => emit (EvSend id msg) w) w
        (elements (registeredNodes (node w))).

(** *** The sender methods the connection node calls *)

Definition detach (s : Sender) : Sender :=
  {| supportedApplications := supportedApplications s;
     receiver := None; adapter := None |}.

Definition unjoin (id : string) (w : World) : World :=
  emit (EvStatus id st_connected) (on_senders (alter detach id) w).

(** [join] places the transport call; the promise it leaves is recorded in
    [joins] and settles later (see [join_fulfilled]). *)
Definition join (id : string) (activeSession : Session) (castV2App : CastApp) : M unit :=
  joinSessionAsync activeSession castV2App ;;;
  lift (on_joins (fun l => l ++ [(id, activeSession, castV2App)])).

(** *** joinNodes *)

Definition same_app (session : Session) (supportedApp : CastApp) : bool :=
  String.eqb (APP_ID supportedApp) (appId session).

(** The two [find]s of the loop body: the session, then the application. *)
Definition find_activeSession (supported : list CastApp) (status : PlatformStatus)
    : option Session :=
  match applications status with
  | Some apps => find (fun session => existsb (same_app session) supported) apps
  | None => None
  end.

Definition find_castV2App (supported : list CastApp) (activeSession : option Session)
    : option CastApp :=
  match activeSession with
  | Some session => find (same_app session) supported
  | None => None
  end.

Definition supported_of (w : World) (id : string) : list CastApp :=
  from_option supportedApplications [] (senders w !! id).

Definition joinNodes_body (status : PlatformStatus) (id : string) : M unit := fun w =>
  let activeSession := find_activeSession (supported_of w id) status in
  let castV2App := find_castV2App (supported_of w id) activeSession in
  match activeSession, castV2App with
  | Some session, Some a => join id session a w
  | _, _ => lift (unjoin id) w
  end.

Definition joinNodes : M unit := fun w =>
  match connected (node w), platformStatus (node w) with
  | true, Some status =>
      for_each (joinNodes_body status) (elements (registeredNodes (node w))) w
  | _, _ => (Throw (Error "Not connected"), w)
  end.

(** *** disconnect, reconnect, connect *)

(** [node.client.close()].  A closed client no longer completes what was
    asked of it, neither its connect nor a volume request: this is the one
    assumption made on the transport. *)
Definition close_the_client : M unit := fun w =>
  match client (node w) with
  | Some c =>
      let w' := on_chains (filter (fun c' => c' ≠ c))
                  (on_client c (with_connect_pending false)
                     (emit (EvClient c client_close) w)) in
      if close_throws c then (Throw (Error "close"), w') else (Return tt, w')
  | None => (Throw TypeError, w)
  end.

Definition disconnect (w : World) : World :=
  let w1 := if connected (node w) || connecting (node w)
            then try_catch close_the_client (fun _ w' => w') w
            else w in
  let w2 := on_node (fun n => with_flags false false
                      (with_platformStatus None (with_client None n))) w1 in
  let w3 := foldl (fun w id => unjoin id w) w2
              (elements (registeredNodes (node w2))) in
  setStatusOfRegisteredNodes st_disconnected w3.

Definition clearTimeout (t : option nat) (w : World) : World :=
  match t with
  | Some t => emit (EvClearTimeout t) (on_timers (fun l => <[t := false]> l) w)
  | None => w
  end.

Definition reconnect (w : World) : World :=
  let w1 := on_node (with_flags false false) w in
  if negb (closing (node w1)) && Nat.ltb 0 (size (registeredNodes (node w1))) then
    let w2 := clearTimeout (reconnectTimeOut (node w1)) w1 in
    let t := length (timers w2) in
    emit (EvSetTimeout t)
      (on_node (with_reconnectTimeOut (Some t)) (on_timers (fun l => l ++ [true]) w2))
  else w1.

Definition new_client : ClientState :=
  {| connect_pending := false; status_pending := false;
     error_armed := true; close_armed := true |}.

(** [connect]: the body up to and including the [connectAsync] call; the
    callbacks of its promise chain are [connect_fulfilled],
    [status_fulfilled] and [chain_rejected]. *)
Definition connect (w : World) : World :=
  if negb (connected (node w)) && negb (connecting (node w)) then
    let w1 := on_node (fun n => with_flags (connected n) true
                        (with_reconnectTimeOut None n)) w in
    let c := length (clients w1) in
    let w2 := emit (EvNewClient c)
                (on_node (with_client (Some c))
                  (on_clients (fun l => l ++ [new_client]) w1)) in
    let w3 := setStatusOfRegisteredNodes st_connecting w2 in
    on_client c (with_connect_pending true) (emit (EvClient c client_connect) w3)
  else w.

(** [.then(() => { ...; return node.client.getStatusAsync(); })] *)
Definition connect_fulfilled : M unit :=
  lift (on_node (with_flags true false)) ;;;
  lift (setStatusOfRegisteredNodes st_connected) ;;;
  (fun w => match client (node w) with
            | Some c => (Return tt, on_client c (with_status_pending true)
                                      (emit (EvClient c client_getStatus) w))
            | None => (Throw TypeError, w)
            end).

(** [.then(status => { ... })], also the body of the "status" listener. *)
Definition status_fulfilled (status : option PlatformStatus) : M unit :=
  lift (on_node (with_platformStatus status)) ;;;
  joinNodes ;;;
  lift (sendToRegisteredNodes (platform_msg status)).

(** [.catch(error => { ...; node.disconnect(); node.reconnect(); })], and
    the body of the "error" and "close" listeners. *)
Definition chain_rejected (w : World) : World := reconnect (disconnect w).

(** *** register, deregister, the close handler *)

Definition register (id : string) (w : World) : World :=
  let w1 := on_node (fun n => with_registeredNodes ({[id]} ∪ registeredNodes n) n) w in
  if Nat.eqb (size (registeredNodes (node w1))) 1 then connect w1 else w1.

Definition deregister (id : string) (done : World -> World) (w : World) : World :=
  let w1 := on_node (fun n => with_registeredNodes (registeredNodes n ∖ {[id]}) n) w in
  if closing (node w1) then done w1
  else
    let w2 := if Nat.eqb (size (registeredNodes (node w1))) 0
              then if connected (node w1) || connecting (node w1)
                   then disconnect w1 else w1
              else w1 in
    done w2.

Definition on_close (done : World -> World) (w : World) : World :=
  done (disconnect (on_node (with_closing true) w)).

(** *** sendPlatformCommandAsync

    The first client call is placed at once; the result lists the calls
    chained behind it with [.then], which [volume_fulfilled] makes once
    the first has answered. *)
Definition sendPlatformCommandAsync (command : Command) (rcv : option Receiver)
    : M (list ClientCall) := fun w =>
  if negb (connected (node w)) then (Throw (Error "Not connected"), w)
  else if String.eqb (type command) "CLOSE" then
    match rcv with
    | Some r => (call_client (client_stop r) ;;; ret []) w
    | None => (call_client client_getStatus ;;; ret []) w
    end
  else if String.eqb (type command) "GET_VOLUME" then
    (call_client_then client_getVolume ;;; ret [client_getStatus]) w
  else if String.eqb (type command) "GET_CAST_STATUS" then
    (call_client client_getStatus ;;; ret []) w
  else if String.eqb (type command) "MUTE" then
    (call_client_then (client_setVolume (muted true)) ;;; ret [client_getStatus]) w
  else if String.eqb (type command) "UNMUTE" then
    (call_client_then (client_setVolume (muted false)) ;;; ret [client_getStatus]) w
  else if String.eqb (type command) "VOLUME" then
    if truthy (volume command) && js_ge (volume command) 0
       && js_le (volume command) 100
    then (call_client_then (client_setVolume
                              (level (default 0 (volume command) / 100)%Q))
          ;;; ret [client_getStatus]) w
    else (Throw (Error "Malformed command"), w)
  else (Throw (Error "Malformed command"), w).

End ConnectionNode.

(** ** CastV2SenderNode *)

Section SenderNode.
Context {lib : Collaborators}.

Definition with_adapter (a : option Adapter) (s : Sender) : Sender :=
  {| supportedApplications := supportedApplications s;
     receiver := receiver s; adapter := a |}.

Definition with_receiver (r : option Receiver) (s : Sender) : Sender :=
  {| supportedApplications := supportedApplications s;
     receiver := r; adapter := adapter s |}.

Definition receiver_of (w : World) (id : string) : option Receiver :=
  senders w !! id ≫= receiver.

Definition adapter_of (w : World) (id : string) : option Adapter :=
  senders w !! id ≫= adapter.

Definition getAdapter (castV2App : CastApp) : option Adapter :=
  if String.eqb (APP_ID castV2App) (APP_ID DefaultMediaReceiver)
  then Some DefaultMediaReceiverAdapter
  else if String.eqb (APP_ID castV2App) (APP_ID YouTubeReceiver)
  then Some YouTubeReceiverAdapter
  else None.

Definition getCommandApp (command : Command) : option CastApp :=
  match app command with
  | Some name =>
      if String.eqb name "DefaultMediaReceiver" then Some DefaultMediaReceiver
      else if String.eqb name "YouTube" then Some YouTubeReceiver
      else None
  | None => None
  end.

(** [initReceiver(receiver, castV2App)]; [castV2App] is null when
    [getCommandApp] found nothing, and [castV2App.APP_ID] then throws. *)
Definition initReceiver (id : string) (rcv : Receiver) (castV2App : option CastApp)
    : M unit := fun w =>
  match castV2App with
  | None => (Throw TypeError, w)
  | Some a =>
      let w1 := on_senders (alter (with_adapter (getAdapter a)) id) w in
      match getAdapter a with
      | None => (Throw TypeError, w1)
      | Some ad =>
          (Return tt,
           emit (EvStatus id st_joined)
             (on_senders
                (alter (with_receiver (Some (adapter_initReceiver ad rcv))) id) w1))
      end
  end.

(** The promise of [join] fulfils: [.then(receiver => node.initReceiver(...))].
    Nothing catches a throw of the callback. *)
Definition join_fulfilled (id : string) (activeSession : Session) (castV2App : CastApp)
    (w : World) : World :=
  try_catch
    (initReceiver id {| rcv_app := castV2App; rcv_session := activeSession |}
       (Some castV2App))
    (fun e w' => emit (EvUncaught e) w') w.

(** *** sendMediaCommandAsync

    [reply] is what [node.receiver.getStatusAsync()] fulfils with.  The
    query itself is placed on the receiver the dispatcher has just tested.
    Its callback reads [node.receiver] again, and by then [unjoin], the
    receiver's "close" listener or the close handler of the sender may
    have set it to null: [held] is what the callback finds.  The result
    lists the receiver calls made, in order, and how the returned promise
    settles. *)
Inductive MediaValue :=
  | value_status (status : option MediaStatus)
  | value_of (call : ReceiverCall)
  | value_undefined.

Definition bit_set (mask : Z) (bit : Z) : bool :=
  negb (Z.eqb (Z.land mask bit) 0).

(** [return node.receiver.method(...)] inside the callback of the status
    query: [held] is [node.receiver] as the callback finds it, and a
    method read on null throws. *)
Definition call_receiver (held : option Receiver) (call : ReceiverCall)
    : list ReceiverCall * Completion MediaValue :=
  match held with
  | Some _ => ([receiver_getStatus; call], Return (value_of call))
  | None => ([receiver_getStatus], Throw TypeError)
  end.

Definition sendMediaCommandAsync (command : Command) (reply : option MediaStatus)
    (held : option Receiver) : list ReceiverCall * Completion MediaValue :=
  if String.eqb (type command) "GET_STATUS" then
    ([receiver_getStatus], Return (value_status reply))
  else
    match reply with
    | None => ([receiver_getStatus], Throw (Error "not playing"))
    | Some status =>
        if String.eqb (type command) "PAUSE" then
          if bit_set (supportedMediaCommands status) 1
          then call_receiver held receiver_pause
          else ([receiver_getStatus], Return value_undefined)
        else if String.eqb (type command) "PLAY" then
          call_receiver held receiver_play
        else if String.eqb (type command) "SEEK" then
          if truthy (time command) && bit_set (supportedMediaCommands status) 2
          then call_receiver held (receiver_seek (default 0%Q (time command)))
          else ([receiver_getStatus], Return value_undefined)
        else if String.eqb (type command) "STOP" then
          call_receiver held receiver_stop
        else ([receiver_getStatus], Throw (Error "Malformed media control command"))
    end.

(** *** sendCommandAsync

    The promise returned by one pass of [sendCommandAsync].  After a
    launch the same command is dispatched again from [launch_fulfilled]. *)
Inductive Promise :=
  | platform_promise (chained : list ClientCall)
  | launch_promise (castV2App : option CastApp)
  | media_promise (r : Receiver)
  | app_promise (ad : Adapter) (r : Receiver) (command : Command).

Definition sendCommandAsync (id : string) (command : Command) : M Promise := fun w =>
  if includes platformCommands (type command) then
    bind (sendPlatformCommandAsync command (receiver_of w id))
         (fun chained => ret (platform_promise chained)) w
  else
    match receiver_of w id, adapter_of w id with
    | Some r, Some ad =>
        if includes mediaCommands (type command)
        then (Return (media_promise r), w)
        else (Return (app_promise ad r command), w)
    | _, _ =>
        let castV2App := getCommandApp command in
        (launchAsync castV2App ;;; ret (launch_promise castV2App)) w
    end.

(** [.then(receiver => { node.initReceiver(receiver, castV2App);
    return node.sendCommandAsync(command); })] *)
Definition launch_fulfilled (id : string) (rcv : Receiver) (castV2App : option CastApp)
    (command : Command) : M Promise :=
  initReceiver id rcv castV2App ;;; sendCommandAsync id command.

(** *** Construction and the close handler of a sender *)

Definition new_sender : Sender :=
  {| supportedApplications := [DefaultMediaReceiver; YouTubeReceiver];
     receiver := None; adapter := None |}.

Definition CastV2SenderNode (id : string) (w : World) : World :=
  let w1 := on_senders (fun m => <[id := new_sender]> m) w in
  let w2 := register id (emit (EvStatus id st_disconnected) w1) in
  if connected (node w2) then emit (EvStatus id st_connected) w2 else w2.

Definition sender_on_close (id : string) (w : World) : World :=
  deregister id (fun w' => emit EvDone (on_senders (alter detach id) w')) w.

End SenderNode.

(** ** The input handler of a sender

    [msg.payload] is null or undefined, some value that is not an object,
    or an object read through the fields of a command.  An object without
    a [type] behaves in this file like one whose type is none of the known
    names, so it needs no case of its own.  What the handler tells the
    runtime ([done()], [done(error)], [node.error(error, ...)]) is its
    result. *)
Inductive Payload :=
  | payload_nullish
  | payload_not_object
  | payload_object (command : Command).

Inductive Report :=
  | done_called (error : option JsError)
  | node_error (error : JsError)
  | no_report.

Inductive InputOutcome :=
  | input_failed (r : Report)
  | input_pending (p : Promise).

Definition st_error : Status :=
  {| fill := "red"; shape := "ring"; text := "error" |}.

Section InputHandler.
Context {lib : Collaborators}.

Definition with_app (a : option string) (c : Command) : Command :=
  {| type := type c; app := a; volume := volume c; time := time c |}.

(** The two defaults applied to [msg.payload] before the dispatch. *)
Definition validate (p : Payload) : Command :=
  let c := match p with
           | payload_object c => c
           | _ => {| type := "GET_CAST_STATUS"; app := None;
                     volume := None; time := None |}
           end in
  match app c with
  | Some _ => c
  | None => with_app (Some "DefaultMediaReceiver") c
  end.

(** [errorHandler(error)]; [done] tells whether the runtime passed a
    [done] callback. *)
Definition errorHandler (id : string) (done : bool) (error : JsError)
    (w : World) : Report * World :=
  (if done then done_called (Some error) else node_error error,
   emit (EvStatus id st_error) w).

(** The synchronous part of the handler: validation, the dispatch, and the
    [catch] around both. *)
Definition on_input (id : string) (p : Payload) (done : bool) (w : World)
    : InputOutcome * World :=
  match sendCommandAsync id (validate p) w with
  | (Return promise, w') => (input_pending promise, w')
  | (Throw e, w') =>
      let (r, w'') := errorHandler id done e w' in (input_failed r, w'')
  end.

(** The promise of the dispatch settles: [.then(status => ...)] or
    [.catch(error => errorHandler(error))]. *)
Definition input_settled (id : string) (done : bool) (rejection : option JsError)
    (w : World) : Report * World :=
  match rejection with
  | None => (if done then done_called None else no_report, w)
  | Some e => errorHandler id done e w
  end.

End InputHandler.

(** ** The event loop

    One input is one callback run to completion.  A rejection raised in the
    connect chain runs the chain's [catch] callback.  The listeners a
    sender puts on its receiver ("status", "close") and the completion of
    a launch are inputs that may arrive at any time.  A volume request
    answers, or fails, while its continuation is still owed. *)
Inductive Input :=
  | sender_created (id : string)
  | sender_closed (id : string)
  | node_closed
  | timer_fires (t : nat)
  | client_error (c : nat)
  | client_closed (c : nat)
  | client_status (c : nat) (status : option PlatformStatus)
  | connect_resolves (c : nat)
  | connect_rejects (c : nat)
  | status_resolves (c : nat) (status : option PlatformStatus)
  | status_rejects (c : nat)
  | join_resolves (k : nat)
  | command_received (id : string) (command : Command)
  | launch_resolves (id : string) (rcv : Receiver) (castV2App : option CastApp)
      (command : Command)
  | receiver_status (id : string) (status : option MediaStatus)
  | receiver_closed (id : string)
  | volume_resolves (k : nat)
  | volume_rejects (k : nat).

Section EventLoop.
Context {lib : Collaborators}.

Definition guard (b : bool) (w : World) : option World :=
  if b then Some w else None.

Definition handle (i : Input) (w : World) : option World :=
  match i with
  | sender_created id => Some (CastV2SenderNode id w)
  | sender_closed id => Some (sender_on_close id w)
  | node_closed => Some (on_close (emit EvDone) w)
  | timer_fires t =>
      guard (default false (timers w !! t))
            (connect (on_timers (fun l => <[t := false]> l) w))
  | client_error c =>
      guard (client_is error_armed c w)
            (chain_rejected (on_client c (with_error_armed false) w))
  | client_closed c =>
      guard (client_is close_armed c w)
            (chain_rejected (on_client c (with_close_armed false) w))
  | client_status c status =>
      guard (bool_decide (c < length (clients w))%nat)
            (try_catch (status_fulfilled status) (fun e w' => emit (EvUncaught e) w') w)
  | connect_resolves c =>
      guard (client_is connect_pending c w)
            (try_catch connect_fulfilled (fun _ => chain_rejected)
               (on_client c (with_connect_pending false) w))
  | connect_rejects c =>
      guard (client_is connect_pending c w)
            (chain_rejected (on_client c (with_connect_pending false) w))
  | status_resolves c status =>
      guard (client_is status_pending c w)
            (try_catch (status_fulfilled status) (fun _ => chain_rejected)
               (on_client c (with_status_pending false) w))
  | status_rejects c =>
      guard (client_is status_pending c w)
            (chain_rejected (on_client c (with_status_pending false) w))
  | join_resolves k =>
      match joins w !! k with
      | Some (id, activeSession, castV2App) =>
          Some (join_fulfilled id activeSession castV2App
                  (on_joins (fun l => delete k l) w))
      | None => None
      end
  | command_received id command => Some (snd (sendCommandAsync id command w))
  | launch_resolves id rcv castV2App command =>
      Some (snd (launch_fulfilled id rcv castV2App command w))
  | receiver_status id status => Some (emit (EvSend id (payload_msg status)) w)
  | receiver_closed id =>
      Some (emit (EvStatus id st_connected) (on_senders (alter detach id) w))
  | volume_resolves k =>
      guard (bool_decide (k < length (chains w))%nat)
            (snd (volume_fulfilled (on_chains (fun l => delete k l) w)))
  | volume_rejects k =>
      guard (bool_decide (k < length (chains w))%nat)
            (on_chains (fun l => delete k l) w)
  end.

Fixpoint run (inputs : list Input) (w : World) : option World :=
  match inputs with
  | [] => Some w
  | i :: rest => handle i w ≫= run rest
  end.

Definition step (w w' : World) : Prop := ∃ i, handle i w = Some w'.

Inductive reachable : World -> Prop :=
  | reachable_init : reachable init
  | reachable_step w w' : reachable w -> step w w' -> reachable w'.

End EventLoop.

(** ** Notions used to state the properties *)

Section Notions.
Context {lib : Collaborators}.

(** A sender is attached when both [receiver] and [adapter] are set. *)
Definition attached (w : World) (id : string) : Prop :=
  is_Some (receiver_of w id) ∧ is_Some (adapter_of w id).

(** The senders of [ids] detached, one after the other. *)
Definition detach_all (ids : list string) (m : gmap string Sender) : gmap string Sender :=
  foldl (fun m id => alter detach id m) m ids.

(** What the guarded [node.client.close()] of [disconnect] does: the call
    it places, and the client it closes. *)
Definition close_events (w : World) : list Event :=
  if connected (node w) || connecting (node w)
  then match client (node w) with
       | Some c => [EvClient c client_close]
       | None => []
       end
  else [].

Definition closed_clients (w : World) : list ClientState :=
  if connected (node w) || connecting (node w)
  then match client (node w) with
       | Some c => alter (with_connect_pending false) c (clients w)
       | None => clients w
       end
  else clients w.

(** The continuations still owed once the guarded [close()] has run. *)
Definition closed_chains (w : World) : list nat :=
  if connected (node w) || connecting (node w)
  then match client (node w) with
       | Some c => filter (fun c' => c' ≠ c) (chains w)
       | None => chains w
       end
  else chains w.

Definition status_events (status : Status) (ids : list string) : list Event :=
  map (fun id => EvStatus id status) ids.

(** The registry without [id]. *)
Definition without (id : string) (w : World) : World :=
  on_node (fun n => with_registeredNodes (registeredNodes n ∖ {[id]}) n) w.

(** What a teardown leaves behind, and what it did on the way. *)
Definition torn_down (w w' : World) : Prop :=
  platformStatus (node w') = None ∧
  client (node w') = None ∧
  connected (node w') = false ∧
  connecting (node w') = false ∧
  registeredNodes (node w') = registeredNodes (node w) ∧
  ∃ es, trace w' = trace w ++ es ∧
    (∀ c, client (node w) = Some c → EvClient c client_close ∈ es) ∧
    (∀ id, id ∈ registeredNodes (node w) →
       senders w' !! id ≫= receiver = None ∧
       senders w' !! id ≫= adapter = None ∧
       EvStatus id st_connected ∈ es ∧
       EvStatus id st_disconnected ∈ es).

(** Which clients still owe the completion of their connect. *)
Definition pendings (w : World) : list bool := connect_pending <$> clients w.

(** The invariant of the event loop: only the client held, while
    connecting, can still complete its connect; and a connected node
    holds a client. *)
Definition machine_ok (w : World) : Prop :=
  (∀ c, pendings w !! c = Some true →
        connecting (node w) = true ∧ client (node w) = Some c) ∧
  (connected (node w) = true → is_Some (client (node w))).

(** A callback that left the connection node, the clients and the timers
    as they were, and left a continuation owed only by the client held. *)
Definition untouched (w w' : World) : Prop :=
  node w' = node w ∧ clients w' = clients w ∧ timers w' = timers w ∧
  ∀ c, c ∈ chains w' → c ∈ chains w ∨ client (node w) = Some c.

Definition harmless {A} (m : M A) : Prop := ∀ w, untouched w (m w).2.

Definition same_core (w w' : World) : Prop :=
  connected (node w') = connected (node w) ∧
  connecting (node w') = connecting (node w) ∧
  client (node w') = client (node w) ∧
  pendings w' = pendings w.

(** Nothing held, nothing under way. *)
Definition idle (w : World) : Prop :=
  connected (node w) = false ∧ connecting (node w) = false ∧
  client (node w) = None ∧ ∀ c, pendings w !! c ≠ Some true.

(** What holds between two calls of the owner: the event-loop invariant,
    a connect under way belongs to the client held, and the node is busy
    exactly when senders are registered (and never once closing). *)
Definition calls_ok (w : World) : Prop :=
  machine_ok w ∧
  (connected (node w) = true → connecting (node w) = false) ∧
  (connecting (node w) = true →
     ∃ c, client (node w) = Some c ∧ pendings w !! c = Some true) ∧
  (closing (node w) = false →
     (connected (node w) || connecting (node w) = true ↔
      registeredNodes (node w) ≠ ∅)) ∧
  (closing (node w) = true →
     connected (node w) = false ∧ connecting (node w) = false).

(** [session] is the first entry of [apps] whose application identifier is
    the [APP_ID] of some supported application. *)
Definition first_session (supported : list CastApp) (apps : list Session)
    (session : Session) : Prop :=
  ∃ before after,
    apps = before ++ session :: after ∧
    (∀ s a, s ∈ before → a ∈ supported → APP_ID a ≠ appId s) ∧
    (∃ a, a ∈ supported ∧ APP_ID a = appId session).

(** [a] is the first supported application whose [APP_ID] is the
    application identifier of [session]. *)
Definition first_capability (supported : list CastApp) (session : Session)
    (a : CastApp) : Prop :=
  ∃ before after,
    supported = before ++ a :: after ∧
    APP_ID a = appId session ∧
    (∀ a', a' ∈ before → APP_ID a' ≠ appId session).

(** No session of the snapshot runs a supported application. *)
Definition no_match (supported : list CastApp) (status : PlatformStatus) : Prop :=
  ∀ apps s a, applications status = Some apps →
    s ∈ apps → a ∈ supported → APP_ID a ≠ appId s.

(** What one pass of the loop body of [joinNodes] decides for a sender
    with the capabilities [supported]: the session and application to
    join, or nothing (unjoin). *)
Definition instruction (supported : list CastApp) (status : PlatformStatus)
    : option (Session * CastApp) :=
  match find_activeSession supported status with
  | Some session =>
      match find_castV2App supported (Some session) with
      | Some a => Some (session, a)
      | None => None
      end
  | None => None
  end.

(** The sender left by [initReceiver] once the join of [session] with
    application [a] fulfilled. *)
Definition attach (a : CastApp) (session : Session) (x : Sender) : Sender :=
  match getAdapter a with
  | Some ad =>
      with_receiver
        (Some (adapter_initReceiver ad {| rcv_app := a; rcv_session := session |}))
        (with_adapter (Some ad) x)
  | None => with_adapter None x
  end.

(** The attachment the join protocol gives a sender for a snapshot. *)
Definition outcome (status : PlatformStatus) (x : Sender) : Sender :=
  match instruction (supportedApplications x) status with
  | Some (session, a) => attach a session x
  | None => detach x
  end.

(** The loop body of [joinNodes] on a connected node holding client [c]. *)
Definition body_on (status : PlatformStatus) (c : nat) (w : World) (id : string) : World :=
  match instruction (supported_of w id) status with
  | Some (session, a) =>
      on_joins (fun l => l ++ [(id, session, a)])
        (emit (EvClient c (client_join session a)) w)
  | None => unjoin id w
  end.

(** The joins and the events the loop leaves for the senders [ids]. *)
Definition joins_for (sup : string → list CastApp) (status : PlatformStatus)
    (ids : list string) : list (string * Session * CastApp) :=
  omap (fun id => (fun sa : Session * CastApp => (id, sa.1, sa.2))
                    <$> instruction (sup id) status) ids.

Definition events_for (sup : string → list CastApp) (status : PlatformStatus)
    (c : nat) (ids : list string) : list Event :=
  map (fun id => match instruction (sup id) status with
                 | Some (session, a) => EvClient c (client_join session a)
                 | None => EvStatus id st_connected
                 end) ids.

(** Every join left pending fulfils, in the order the joins were placed. *)
Definition settle_joins (w : World) : World :=
  foldl (fun w '(id, activeSession, castV2App) =>
           join_fulfilled id activeSession castV2App w)
        (on_joins (fun _ => []) w) (joins w).

(** The join protocol followed by the completion of the joins it placed. *)
Definition joinNodes_settled (w : World) : World :=
  settle_joins (snd (joinNodes w)).

(** Settling without failures: the connect attempt of the client held, if
    one is under way, succeeds and its status query answers [status].
    Errors of the transport, rejections and reconnect timers are no part
    of it; they are inputs of the event loop ([handle]). *)
Definition settle (status : PlatformStatus) (w : World) : World :=
  match client (node w) with
  | Some c =>
      match handle (connect_resolves c) w with
      | Some w1 => default w1 (handle (status_resolves c (Some status)) w1)
      | None => w
      end
  | None => w
  end.

(** Calls on the connection node, interleaved with settling. *)
Inductive Call :=
  | call_register (id : string)
  | call_deregister (id : string)
  | call_settle (status : PlatformStatus).

Definition do_call (w : World) (c : Call) : World :=
  match c with
  | call_register id => register id w
  | call_deregister id => deregister id (emit EvDone) w
  | call_settle status => settle status w
  end.

(** The same, with the close handler of the connection node. *)
Inductive OwnerCall :=
  | a_call (c : Call)
  | owner_close.

Definition do_owner_call (w : World) (c : OwnerCall) : World :=
  match c with
  | a_call c => do_call w c
  | owner_close => on_close (emit EvDone) w
  end.

(** No registration follows the close of the connection node. *)
Fixpoint no_register_after_close (closed : bool) (calls : list OwnerCall) : bool :=
  match calls with
  | [] => true
  | a_call (call_register _) :: rest => negb closed && no_register_after_close closed rest
  | a_call _ :: rest => no_register_after_close closed rest
  | owner_close :: rest => no_register_after_close true rest
  end.

(** The SEEK gate as the claim words it: seek runs exactly when the mask
    has bit 2 and the command carries a time value. *)
Definition seek_gate_as_claimed : Prop :=
  ∀ command status held,
    type command = "SEEK" →
    (∃ t, receiver_seek t
            ∈ (sendMediaCommandAsync command (Some status) (Some held)).1) ↔
    (Z.testbit (supportedMediaCommands status) 1 = true ∧ is_Some (time command)).

Definition skipped : list ReceiverCall * Completion MediaValue :=
  ([receiver_getStatus], Return value_undefined).

Definition executed (call : ReceiverCall) : list ReceiverCall * Completion MediaValue :=
  ([receiver_getStatus; call], Return (value_of call)).

(** The claim on an unresolved application, as worded: the dispatch
    throws and leaves no trace of a launch request. *)
Definition unknown_application_as_claimed : Prop :=
  ∀ w id command,
    includes platformCommands (type command) = false →
    ¬ attached w id →
    getCommandApp command = None →
    ∃ e, sendCommandAsync id command w = (Throw e, w).

(** The closing branch as the claim words it: nothing changes. *)
Definition deregister_closing_as_claimed : Prop :=
  ∀ w id, closing (node w) = true → deregister id (fun w' => w') w = w.

End Notions.

(** ** Further notions *)

Section FurtherNotions.
Context {lib : Collaborators}.

(** The flags and the client agree: a client is held exactly while the
    node is connected or connecting, and the node is never both. *)
Definition flags_ok (w : World) : Prop :=
  (is_Some (client (node w)) ↔
   connected (node w) || connecting (node w) = true) ∧
  connected (node w) && connecting (node w) = false.


(** A sender holds a receiver and an adapter, or neither. *)
Definition paired (x : Sender) : Prop :=
  is_Some (receiver x) ↔ is_Some (adapter x).

(** A sender object as the constructor makes it, and paired. *)
Definition sender_ok (x : Sender) : Prop :=
  supportedApplications x = [DefaultMediaReceiver; YouTubeReceiver] ∧ paired x.

(** Every sender object is as above, and every join left pending is for an
    application that has an adapter. *)
Definition store_ok (w : World) : Prop :=
  map_Forall (fun _ => sender_ok) (senders w) ∧
  Forall (fun j : string * Session * CastApp => is_Some (getAdapter j.2)) (joins w).

(** The completion of a launch carries the application the dispatch asked
    for. *)
Definition from_dispatch (i : Input) : Prop :=
  match i with
  | launch_resolves _ _ castV2App command => castV2App = getCommandApp command
  | _ => True
  end.

(** A function that left the store of senders and the pending joins as
    they were. *)
Definition store_kept (w w' : World) : Prop :=
  senders w' = senders w ∧ joins w' = joins w.

(** [clearTimeout] on the timers. *)
Definition cleared (h : option nat) (l : list bool) : list bool :=
  match h with
  | Some t => <[t := false]> l
  | None => l
  end.

(** Messages forwarded to a sender, as opposed to status badges and calls. *)
Definition is_send (e : Event) : bool :=
  match e with EvSend _ _ => true | _ => false end.

End FurtherNotions.

(** ** Sample worlds *)

(** The two application classes with the identifiers [castv2-client]
    gives them, adapters that keep the receiver they are given, and a
    transport whose [close()] never raises. *)
Definition sample_lib : Collaborators :=
  {| DefaultMediaReceiver := {| APP_ID := "CC1AD845" |};
     YouTubeReceiver := {| APP_ID := "233637DE" |};
     adapter_initReceiver := fun _ r => r;
     close_throws := fun _ => false |}.

Section Samples.
#[local] Existing Instance sample_lib.

Definition after (inputs : list Input) : World := default init (run inputs init).

Definition media_session : Session :=
  {| appId := "CC1AD845"; sessionId := "s1" |}.

Definition other_session : Session :=
  {| appId := "E8C28D3C"; sessionId := "s0" |}.

Definition snapshot : PlatformStatus :=
  {| applications := Some [other_session; media_session] |}.

(** One sender, the connect completed. *)
Definition connected_world : World :=
  after [sender_created "a"; connect_resolves 0].

(** The same, the status query answered and the join it caused fulfilled. *)
Definition joined_world : World :=
  after [sender_created "a"; connect_resolves 0;
         status_resolves 0 (Some snapshot); join_resolves 0].

(** One sender, the client failed: a reconnect timer is pending. *)
Definition retrying_world : World :=
  after [sender_created "a"; client_error 0].

(** One sender, connected, then the close handler of the node ran. *)
Definition closing_world : World :=
  after [sender_created "a"; connect_resolves 0; node_closed].

Definition cmd (t : string) (a : option string) (v tm : option Q) : Command :=
  {| type := t; app := a; volume := v; time := tm |}.

End Samples.

(** * Properties *)

(** ** Platform commands *)

Section PlatformCommands.
Context {lib : Collaborators}.

Lemma volume_accepted w c rcv command v :
  connected (node w) = true →
  client (node w) = Some c →
  type command = "VOLUME" →
  volume command = Some v →
  (0 < v)%Q → (v <= 100)%Q →
  sendPlatformCommandAsync command rcv w =
    (Return [client_getStatus],
     on_chains (fun l => l ++ [c])
       (emit (EvClient c (client_setVolume (level (v / 100)%Q))) w)).
Proof.
  intros Hc Hcl Ht Hv Hlo Hhi.
  unfold sendPlatformCommandAsync. rewrite Hc, Ht, Hv. simpl.
  assert (Qeq_bool v 0 = false) as ->.
  { apply not_true_is_false. intros E%Qeq_bool_iff.
    rewrite E in Hlo. by apply Qlt_irrefl in Hlo. }
  assert (Qle_bool 0 v = true) as -> by (apply Qle_bool_iff; by apply Qlt_le_weak).
  assert (Qle_bool v 100 = true) as -> by (by apply Qle_bool_iff).
  simpl. unfold bind, call_client_then. by rewrite Hcl.
Qed.

Lemma volume_out_of_range w rcv command v :
  connected (node w) = true →
  type command = "VOLUME" →
  volume command = Some v →
  (v < 0)%Q ∨ (100 < v)%Q →
  sendPlatformCommandAsync command rcv w = (Throw (Error "Malformed command"), w).
Proof.
  intros Hc Ht Hv Hout.
  unfold sendPlatformCommandAsync. rewrite Hc, Ht, Hv. simpl.
  destruct Hout as [Hlo | Hhi].
  - assert (Qle_bool 0 v = false) as ->.
    { apply not_true_is_false. intros E%Qle_bool_iff.
      by apply Qlt_not_le in Hlo. }
    by rewrite andb_false_r.
  - assert (Qle_bool v 100 = false) as ->.
    { apply not_true_is_false. intros E%Qle_bool_iff.
      by apply Qlt_not_le in Hhi. }
    by rewrite andb_false_r.
Qed.

Lemma volume_absent w rcv command :
  connected (node w) = true →
  type command = "VOLUME" →
  volume command = None →
  sendPlatformCommandAsync command rcv w = (Throw (Error "Malformed command"), w).
Proof.
  intros Hc Ht Hv. unfold sendPlatformCommandAsync. by rewrite Hc, Ht, Hv.
Qed.

(** C1 (the code departs from the claim at volume 0).  A VOLUME command
    whose volume is 0, the lower end of [0,100], is not forwarded to
    [setVolume]: the truthiness test in front of [command.volume >= 0]
    rejects it and the command fails with "Malformed command". *)
Theorem volume_zero_is_rejected w rcv command v :
  connected (node w) = true →
  type command = "VOLUME" →
  volume command = Some v →
  (v == 0)%Q →
  sendPlatformCommandAsync command rcv w = (Throw (Error "Malformed command"), w).
Proof.
  intros Hc Ht Hv Hz.
  unfold sendPlatformCommandAsync. rewrite Hc, Ht, Hv. simpl.
  apply Qeq_bool_iff in Hz. by rewrite Hz.
Qed.

End PlatformCommands.

(** ** Media commands *)

Section MediaCommands.
Context {lib : Collaborators}.

Lemma land_pow2 (m n : Z) :
  (0 <= n)%Z →
  Z.land m (2 ^ n) = if Z.testbit m n then (2 ^ n)%Z else 0%Z.
Proof.
  intros Hn. apply Z.bits_inj'. intros k Hk.
  rewrite Z.land_spec, Z.pow2_bits_eqb by done.
  destruct (Z.eqb_spec n k) as [-> | Hne].
  - rewrite andb_true_r. destruct (Z.testbit m k) eqn:E.
    + by rewrite Z.pow2_bits_true.
    + by rewrite Z.bits_0.
  - rewrite andb_false_r. destruct (Z.testbit m n).
    + by rewrite Z.pow2_bits_false.
    + by rewrite Z.bits_0.
Qed.

Lemma bit_set_1 (m : Z) : bit_set m 1 = Z.testbit m 0.
Proof.
  unfold bit_set. change 1%Z with (2 ^ 0)%Z. rewrite land_pow2 by done.
  by destruct (Z.testbit m 0).
Qed.

Lemma bit_set_2 (m : Z) : bit_set m 2 = Z.testbit m 1.
Proof.
  unfold bit_set. change 2%Z with (2 ^ 1)%Z. rewrite land_pow2 by done.
  by destruct (Z.testbit m 1).
Qed.

(** C2 (the code departs from the claim).  For a media command other than
    GET_STATUS, when the status query answers null the callback throws
    [Error("not playing")]: the returned promise is rejected.  Only the
    status query reached the receiver, whether or not the sender still
    holds it. *)
Theorem media_without_status_is_rejected command held :
  type command ≠ "GET_STATUS" →
  sendMediaCommandAsync command None held =
    ([receiver_getStatus], Throw (Error "not playing")).
Proof.
  intros Ht. unfold sendMediaCommandAsync.
  destruct (String.eqb_spec (type command) "GET_STATUS"); done.
Qed.

(** What the gates of the callback do while the sender still holds its
    receiver: PLAY and STOP always run their operation; PAUSE runs iff the
    mask has bit 1 (value 1); SEEK runs iff the mask has bit 2 (value 2)
    and the time is present and not 0; a command whose gate is closed
    makes no call and its promise fulfils with undefined. *)
Lemma media_gates command status held :
  let m := supportedMediaCommands status in
  let r := sendMediaCommandAsync command (Some status) (Some held) in
  (type command = "PLAY" → r = executed receiver_play) ∧
  (type command = "STOP" → r = executed receiver_stop) ∧
  (type command = "PAUSE" →
     (Z.testbit m 0 = true → r = executed receiver_pause) ∧
     (Z.testbit m 0 = false → r = skipped)) ∧
  (type command = "SEEK" →
     (∀ t, time command = Some t → ¬ (t == 0)%Q → Z.testbit m 1 = true →
           r = executed (receiver_seek t)) ∧
     (time command = None ∨ (∃ t, time command = Some t ∧ (t == 0)%Q)
        ∨ Z.testbit m 1 = false → r = skipped)).
Proof.
  intros m r. subst m r. unfold sendMediaCommandAsync, call_receiver.
  split; [|split; [|split]]; intros Ht; rewrite Ht; cbn -[Z.testbit].
  - done.
  - done.
  - rewrite bit_set_1. split; by intros ->.
  - rewrite bit_set_2. split.
    + intros t Htime Hnz Hbit. rewrite Htime, Hbit.
      simpl. destruct (Qeq_bool t 0) eqn:E; [|done].
      by apply Qeq_bool_iff in E.
    + intros [Hn | [[t [Htime Hz]] | Hbit]].
      * by rewrite Hn.
      * rewrite Htime. simpl. apply Qeq_bool_iff in Hz. by rewrite Hz.
      * rewrite Hbit. by rewrite andb_false_r.
Qed.

(** C6 (the code departs from the claim).  SEEK to time 0 never reaches
    the receiver: the gate [command.time && status.supportedMediaCommands
    & 2] reads the time as a condition, and 0 is falsy.  Whatever the
    mask, and bit 2 included, only the status query is made and the
    promise fulfils with undefined, although the command carries a time
    value. *)
Theorem seek_to_zero_is_skipped command status held t :
  type command = "SEEK" →
  time command = Some t →
  (t == 0)%Q →
  sendMediaCommandAsync command (Some status) held = skipped ∧
  ∀ t', receiver_seek t' ∉ (sendMediaCommandAsync command (Some status) held).1.
Proof.
  intros Ht Htime Hz.
  assert (sendMediaCommandAsync command (Some status) held = skipped) as ->.
  { unfold sendMediaCommandAsync. rewrite Ht, Htime. simpl.
    apply Qeq_bool_iff in Hz. by rewrite Hz. }
  split; [done|]. intros t' Hin. simpl in Hin.
  by apply list_elem_of_singleton in Hin.
Qed.

End MediaCommands.

(** ** Dispatch of a command by a sender *)

Section Dispatch.
Context {lib : Collaborators}.

(** C7 (the code departs from the claim).  Nothing tests what
    [getCommandApp] returns.  An unattached sender given a command that is
    not a platform command and whose [app] resolves to nothing hands the
    null application to [launchAsync] of the connection node: on a
    connected node the launch of null is placed on the transport client
    and the dispatch returns its promise, and no error names the unknown
    application (off line the dispatch fails, with "Not connected").
    Should that launch fulfil, its continuation throws a TypeError on
    [castV2App.APP_ID]. *)
Theorem unresolved_app_is_launched w id command :
  includes platformCommands (type command) = false →
  ¬ attached w id →
  getCommandApp command = None →
  (connected (node w) = false →
     sendCommandAsync id command w = (Throw (Error "Not connected"), w)) ∧
  (∀ c, connected (node w) = true → client (node w) = Some c →
     sendCommandAsync id command w =
       (Return (launch_promise None), emit (EvClient c (client_launch None)) w)) ∧
  (∀ rcv w', launch_fulfilled id rcv (getCommandApp command) command w'
               = (Throw TypeError, w')).
Proof.
  intros Hp Hu Happ.
  assert (∀ rcv w', launch_fulfilled id rcv (getCommandApp command) command w'
                      = (Throw TypeError, w')) as Hlate
    by (intros rcv w'; by rewrite Happ).
  unfold sendCommandAsync. rewrite Hp, Happ.
  assert (∀ X : M Promise,
    match receiver_of w id, adapter_of w id with
    | Some r, Some ad =>
        if includes mediaCommands (type command)
        then (Return (media_promise r), w)
        else (Return (app_promise ad r command), w)
    | _, _ => X w
    end = X w) as ->.
  { intros X. unfold attached in Hu.
    destruct (receiver_of w id), (adapter_of w id); try done.
    exfalso. apply Hu. split; by eexists. }
  unfold bind, launchAsync, call_client. split; [|split].
  - by intros ->.
  - intros c -> ->. done.
  - by rewrite <- Happ.
Qed.

End Dispatch.

(** ** Frame lemmas for the connection node *)

Section Frames.
Context {lib : Collaborators}.

Lemma world_eq (w w' : World) :
  node w = node w' → senders w = senders w' → clients w = clients w' →
  timers w = timers w' → joins w = joins w' → chains w = chains w' →
  trace w = trace w' → w = w'.
Proof. destruct w, w'; simpl; by intros -> -> -> -> -> -> ->. Qed.

Lemma emits_nil w : emits [] w = w.
Proof. apply world_eq; simpl; try done. by rewrite app_nil_r. Qed.

Lemma emits_emits es es' w : emits es' (emits es w) = emits (es ++ es') w.
Proof. apply world_eq; simpl; try done. by rewrite app_assoc. Qed.

Lemma emit_emits e w : emit e w = emits [e] w.
Proof. done. Qed.

Lemma foldl_emit (f : string → Event) ids w :
  foldl (fun w id => emit (f id) w) w ids = emits (map f ids) w.
Proof.
  revert w. induction ids as [|id ids IH]; intros w; simpl.
  - by rewrite emits_nil.
  - rewrite IH, emit_emits, emits_emits. done.
Qed.

Lemma setStatusOfRegisteredNodes_spec status w :
  setStatusOfRegisteredNodes status w =
    emits (status_events status (elements (registeredNodes (node w)))) w.
Proof. apply foldl_emit. Qed.

Lemma sendToRegisteredNodes_spec msg w :
  sendToRegisteredNodes msg w =
    emits (map (fun id => EvSend id msg) (elements (registeredNodes (node w)))) w.
Proof. apply foldl_emit. Qed.

Lemma unjoin_fold ids w :
  foldl (fun w id => unjoin id w) w ids =
    emits (status_events st_connected ids) (on_senders (detach_all ids) w).
Proof.
  revert w. induction ids as [|id ids IH]; intros w; simpl.
  - rewrite emits_nil. by destruct w.
  - rewrite IH. apply world_eq; simpl; try done. by rewrite <- app_assoc.
Qed.

Lemma detach_detach s : detach (detach s) = detach s.
Proof. done. Qed.

Lemma detach_all_lookup ids (m : gmap string Sender) id :
  detach_all ids m !! id =
    if decide (id ∈ ids) then detach <$> m !! id else m !! id.
Proof.
  revert m. induction ids as [|i ids IH]; intros m.
  - rewrite decide_False; [done | by apply not_elem_of_nil].
  - unfold detach_all in *. simpl foldl. rewrite IH.
    destruct (decide (i = id)) as [-> | Hne].
    + rewrite lookup_alter_eq.
      rewrite (decide_True (P := id ∈ id :: ids)) by apply list_elem_of_here.
      destruct (decide (id ∈ ids)); destruct (m !! id); done.
    + rewrite lookup_alter_ne by done.
      destruct (decide (id ∈ ids)) as [Hin | Hnin].
      * rewrite decide_True; [done | by apply list_elem_of_further].
      * rewrite decide_False; [done |].
        intros [?|?]%elem_of_cons; congruence.
Qed.

(** *** disconnect *)

Lemma disconnect_node w :
  node (disconnect w) =
    with_flags false false (with_platformStatus None (with_client None (node w))).
Proof.
  unfold disconnect. rewrite setStatusOfRegisteredNodes_spec, unjoin_fold. simpl.
  destruct (connected (node w) || connecting (node w)); [|done].
  unfold try_catch, close_the_client.
  destruct (client (node w)); [|done]. by destruct (close_throws _).
Qed.

Lemma disconnect_senders w :
  senders (disconnect w) =
    detach_all (elements (registeredNodes (node w))) (senders w).
Proof.
  unfold disconnect. rewrite setStatusOfRegisteredNodes_spec, unjoin_fold. simpl.
  destruct (connected (node w) || connecting (node w)); [|done].
  unfold try_catch, close_the_client.
  destruct (client (node w)); [|done]. by destruct (close_throws _).
Qed.

Lemma disconnect_clients w : clients (disconnect w) = closed_clients w.
Proof.
  unfold disconnect, closed_clients.
  rewrite setStatusOfRegisteredNodes_spec, unjoin_fold. simpl.
  destruct (connected (node w) || connecting (node w)); [|done].
  unfold try_catch, close_the_client.
  destruct (client (node w)); [|done]. by destruct (close_throws _).
Qed.

Lemma disconnect_timers w : timers (disconnect w) = timers w.
Proof.
  unfold disconnect. rewrite setStatusOfRegisteredNodes_spec, unjoin_fold. simpl.
  destruct (connected (node w) || connecting (node w)); [|done].
  unfold try_catch, close_the_client.
  destruct (client (node w)); [|done]. by destruct (close_throws _).
Qed.

Lemma disconnect_joins w : joins (disconnect w) = joins w.
Proof.
  unfold disconnect. rewrite setStatusOfRegisteredNodes_spec, unjoin_fold. simpl.
  destruct (connected (node w) || connecting (node w)); [|done].
  unfold try_catch, close_the_client.
  destruct (client (node w)); [|done]. by destruct (close_throws _).
Qed.

Lemma disconnect_chains w : chains (disconnect w) = closed_chains w.
Proof.
  unfold disconnect, closed_chains.
  rewrite setStatusOfRegisteredNodes_spec, unjoin_fold. simpl.
  destruct (connected (node w) || connecting (node w)); [|done].
  unfold try_catch, close_the_client.
  destruct (client (node w)); [|done]. by destruct (close_throws _).
Qed.

Lemma disconnect_trace w :
  trace (disconnect w) =
    trace w ++ close_events w
      ++ status_events st_connected (elements (registeredNodes (node w)))
      ++ status_events st_disconnected (elements (registeredNodes (node w))).
Proof.
  unfold disconnect, close_events.
  rewrite setStatusOfRegisteredNodes_spec, unjoin_fold. simpl.
  destruct (connected (node w) || connecting (node w)); simpl.
  - unfold try_catch, close_the_client.
    destruct (client (node w)); simpl.
    + destruct (close_throws _); simpl; by rewrite <- !app_assoc.
    + by rewrite <- !app_assoc.
  - by rewrite <- !app_assoc.
Qed.

(** *** reconnect *)

Lemma reconnect_flags w :
  connected (node (reconnect w)) = false ∧ connecting (node (reconnect w)) = false.
Proof.
  unfold reconnect. simpl.
  destruct (negb (closing (node w)) && _); [|done].
  by destruct (reconnectTimeOut (node w)).
Qed.

Lemma reconnect_node w :
  closing (node (reconnect w)) = closing (node w) ∧
  registeredNodes (node (reconnect w)) = registeredNodes (node w) ∧
  platformStatus (node (reconnect w)) = platformStatus (node w) ∧
  client (node (reconnect w)) = client (node w).
Proof.
  unfold reconnect. simpl.
  destruct (negb (closing (node w)) && _); [|done].
  by destruct (reconnectTimeOut (node w)).
Qed.

Lemma reconnect_frame w :
  senders (reconnect w) = senders w ∧
  clients (reconnect w) = clients w ∧
  joins (reconnect w) = joins w ∧
  ∃ es, trace (reconnect w) = trace w ++ es.
Proof.
  unfold reconnect. simpl.
  destruct (negb (closing (node w)) && _).
  - destruct (reconnectTimeOut (node w)); simpl; repeat split; try done.
    + eexists. by rewrite <- app_assoc.
    + by eexists.
  - repeat split; try done. exists []. by rewrite app_nil_r.
Qed.

(** After the close handler began, [reconnect] sets no timer. *)
Lemma reconnect_when_closing w :
  closing (node w) = true →
  reconnect w = on_node (with_flags false false) w.
Proof. intros Hc. unfold reconnect. simpl. by rewrite Hc. Qed.

(** *** connect *)

Lemma alter_snoc {A} (f : A → A) (l : list A) (x : A) :
  alter f (length l) (l ++ [x]) = l ++ [f x].
Proof. induction l as [|y l IH]; simpl; [done|]. by f_equal. Qed.

Lemma connect_busy w :
  connected (node w) || connecting (node w) = true → connect w = w.
Proof.
  intros H. unfold connect.
  by destruct (connected (node w)), (connecting (node w)).
Qed.

Lemma connect_idle w :
  connected (node w) = false → connecting (node w) = false →
  let c := length (clients w) in
  node (connect w) =
    with_client (Some c) (with_flags false true (with_reconnectTimeOut None (node w))) ∧
  clients (connect w) = clients w ++ [with_connect_pending true new_client] ∧
  senders (connect w) = senders w ∧
  timers (connect w) = timers w ∧
  joins (connect w) = joins w ∧
  trace (connect w) =
    trace w ++ [EvNewClient c]
      ++ status_events st_connecting (elements (registeredNodes (node w)))
      ++ [EvClient c client_connect].
Proof.
  intros Hcd Hcg c. unfold connect. rewrite Hcd, Hcg. simpl.
  rewrite setStatusOfRegisteredNodes_spec. simpl. rewrite Hcd.
  repeat split; try done.
  - apply alter_snoc.
  - by rewrite <- !app_assoc.
Qed.

End Frames.

(** ** deregister *)

Section Deregister.
Context {lib : Collaborators}.

Lemma size_zero_empty (X : gset string) : size X = 0 ↔ X = ∅.
Proof. rewrite size_empty_iff. by unfold_leibniz. Qed.

Lemma disconnect_of_empty w :
  registeredNodes (node w) = ∅ →
  trace (disconnect w) = trace w ++ close_events w.
Proof.
  intros He. rewrite disconnect_trace, He, elements_empty. simpl.
  by rewrite app_nil_r.
Qed.

(** C8 (amended).  [deregister] calls [done] exactly once, as its last
    step, on a world in which the sender is no longer registered.  When
    the node is closing that removal is all it does.  Otherwise, when the
    registry became empty while connected or connecting, [disconnect] ran
    once before [done]: the flags are down and the only call placed is one
    [close()] on the client held; in every other case nothing else
    happened. *)
Theorem deregister_completes w id :
  ∃ w',
    (∀ done, deregister id done w = done w') ∧
    registeredNodes (node w') = registeredNodes (node w) ∖ {[id]} ∧
    (closing (node w) = true → w' = without id w) ∧
    (closing (node w) = false →
       registeredNodes (node w) ∖ {[id]} = ∅ →
       connected (node w) || connecting (node w) = true →
       w' = disconnect (without id w) ∧
       connected (node w') = false ∧ connecting (node w') = false ∧
       ∀ c, client (node w) = Some c →
            trace w' = trace w ++ [EvClient c client_close]) ∧
    (closing (node w) = false →
       ¬ (registeredNodes (node w) ∖ {[id]} = ∅ ∧
          connected (node w) || connecting (node w) = true) →
       w' = without id w).
Proof.
  unfold deregister. fold (without id w).
  change (closing (node (without id w))) with (closing (node w)).
  change (connected (node (without id w))) with (connected (node w)).
  change (connecting (node (without id w))) with (connecting (node w)).
  change (registeredNodes (node (without id w)))
    with (registeredNodes (node w) ∖ {[id]}).
  destruct (closing (node w)) eqn:Hcl.
  { exists (without id w). repeat split; done. }
  destruct (Nat.eqb_spec (size (registeredNodes (node w) ∖ {[id]})) 0) as [Hz | Hnz].
  - apply size_zero_empty in Hz.
    destruct (connected (node w) || connecting (node w)) eqn:Hfl.
    + exists (disconnect (without id w)).
      split; [done|]. split; [by rewrite disconnect_node|].
      split; [done|]. split; [|intros _ []; by split].
      intros _ _ _. split; [done|].
      rewrite disconnect_node. split; [done|]. split; [done|].
      intros c Hc. rewrite disconnect_of_empty by done.
      unfold close_events. simpl. by rewrite Hfl, Hc.
    + exists (without id w).
      split; [done|]. split; [done|]. split; [done|]. split; done.
  - exists (without id w).
    split; [done|]. split; [done|]. split; [done|]. split; [|done].
    intros _ He. by apply size_zero_empty in He.
Qed.

End Deregister.

(** ** Teardown *)

Section Teardown.
Context {lib : Collaborators}.

Lemma disconnect_torn_down w0 w :
  connected (node w0) = connected (node w) →
  connecting (node w0) = connecting (node w) →
  client (node w0) = client (node w) →
  registeredNodes (node w0) = registeredNodes (node w) →
  trace w0 = trace w →
  connected (node w) || connecting (node w) = true →
  torn_down w (disconnect w0).
Proof.
  intros Hcd Hcg Hcl Hr Ht Hfl. unfold torn_down.
  rewrite disconnect_node, disconnect_trace, disconnect_senders, Ht. simpl.
  rewrite Hr.
  repeat (split; [done|]).
  eexists. split; [done|]. split.
  - intros c Hc. unfold close_events. rewrite Hcd, Hcg, Hcl, Hfl, Hc.
    apply elem_of_app. left. apply list_elem_of_here.
  - intros id Hid.
    assert (id ∈ elements (registeredNodes (node w))) as Hin
      by by apply elem_of_elements.
    rewrite detach_all_lookup, decide_True by done.
    split; [by destruct (senders w0 !! id)|].
    split; [by destruct (senders w0 !! id)|].
    split.
    + apply elem_of_app. right. apply elem_of_app. left.
      by apply (list_elem_of_fmap_2 (fun id => EvStatus id st_connected)).
    + apply elem_of_app. right. apply elem_of_app. right.
      by apply (list_elem_of_fmap_2 (fun id => EvStatus id st_disconnected)).
Qed.

Lemma torn_down_reconnect w w' : torn_down w w' → torn_down w (reconnect w').
Proof.
  intros (Hp & Hc & _ & _ & Hr & es & Ht & Hclose & Hids).
  destruct (reconnect_flags w') as [? ?].
  destruct (reconnect_node w') as (_ & Hr' & Hp' & Hc').
  destruct (reconnect_frame w') as (Hs & _ & _ & es' & Ht').
  unfold torn_down. rewrite Hp', Hc', Hr', Hs, Ht', Ht.
  repeat (split; [done|]).
  exists (es ++ es'). split; [by rewrite app_assoc|]. split.
  - intros c Hcl. apply elem_of_app. left. by apply Hclose.
  - intros id Hid. destruct (Hids id Hid) as (? & ? & ? & ?).
    repeat split; try done; apply elem_of_app; by left.
Qed.

(** Whatever [close()] does, [disconnect] does the same. *)
Lemma disconnect_any_close (lib' : Collaborators) w :
  @disconnect lib' w = @disconnect lib w.
Proof.
  apply world_eq.
  - by rewrite !disconnect_node.
  - by rewrite !disconnect_senders.
  - by rewrite !disconnect_clients.
  - by rewrite !disconnect_timers.
  - by rewrite !disconnect_joins.
  - by rewrite !disconnect_chains.
  - by rewrite !disconnect_trace.
Qed.

(** C9.  From a connected or connecting node, an explicit [disconnect],
    the "error" listener, the "close" listener and the close handler of
    the node each call [close()] on the client held, clear the platform
    status and the client, unjoin every registered sender and report
    "disconnected" to each of them; an exception of [close()] changes
    nothing of this. *)
Theorem teardown_on_every_exit w :
  connected (node w) || connecting (node w) = true →
  torn_down w (disconnect w) ∧
  (∀ lib' : Collaborators, @disconnect lib' w = @disconnect lib w) ∧
  (∀ c w', handle (client_error c) w = Some w' → torn_down w w') ∧
  (∀ c w', handle (client_closed c) w = Some w' → torn_down w w') ∧
  (∀ w', handle node_closed w = Some w' → torn_down w w').
Proof.
  intros Hfl. split; [by apply disconnect_torn_down|].
  split; [intros lib'; apply disconnect_any_close|].
  split; [|split].
  - intros c w'. simpl. unfold guard.
    destruct (client_is error_armed c w); [|done].
    intros [= <-]. apply torn_down_reconnect. by apply disconnect_torn_down.
  - intros c w'. simpl. unfold guard.
    destruct (client_is close_armed c w); [|done].
    intros [= <-]. apply torn_down_reconnect. by apply disconnect_torn_down.
  - intros w'. simpl. intros [= <-]. unfold on_close.
    destruct (disconnect_torn_down (on_node (with_closing true) w) w
                eq_refl eq_refl eq_refl eq_refl eq_refl Hfl)
      as (Hp & Hc & Hcd & Hcg & Hr & es & Ht & Hcl & Hids).
    unfold torn_down. simpl.
    repeat (split; [done|]).
    exists (es ++ [EvDone]). rewrite Ht. split; [by rewrite app_assoc|]. split.
    + intros c Hcc. apply elem_of_app. left. by apply Hcl.
    + intros id Hid. destruct (Hids id Hid) as (? & ? & ? & ?).
      repeat split; try done; apply elem_of_app; by left.
Qed.

End Teardown.

(** ** The invariant of the event loop *)

Section Invariant.
Context {lib : Collaborators}.

Lemma untouched_kept w w' :
  node w' = node w → clients w' = clients w → timers w' = timers w →
  chains w' = chains w → untouched w w'.
Proof.
  intros Hn Hc Ht Hk. split; [done|]. split; [done|]. split; [done|].
  intros c. rewrite Hk. by left.
Qed.

Lemma untouched_refl w : untouched w w.
Proof. by apply untouched_kept. Qed.

Lemma untouched_trans w1 w2 w3 : untouched w1 w2 → untouched w2 w3 → untouched w1 w3.
Proof.
  intros (Hn1 & Hc1 & Ht1 & Hk1) (Hn2 & Hc2 & Ht2 & Hk2).
  split; [congruence|]. split; [congruence|]. split; [congruence|].
  intros c [Hc | Hc]%Hk2; [by apply Hk1|]. right. by rewrite <- Hn1.
Qed.

Lemma harmless_ret {A} (a : A) : harmless (ret a).
Proof. intros w. apply untouched_refl. Qed.

Lemma harmless_bind {A B} (m : M A) (k : A → M B) :
  harmless m → (∀ a, harmless (k a)) → harmless (bind m k).
Proof.
  intros Hm Hk w. unfold bind. specialize (Hm w).
  destruct (m w) as [[a | e] w1]; simpl in *; [|done].
  eapply untouched_trans; [done | apply Hk].
Qed.

Lemma harmless_lift (f : World → World) :
  (∀ w, untouched w (f w)) → harmless (lift f).
Proof. intros Hf w. apply Hf. Qed.

Lemma harmless_for_each body ids :
  (∀ id, harmless (body id)) → harmless (for_each body ids).
Proof.
  intros Hb. induction ids as [|id ids IH]; simpl.
  - apply harmless_ret.
  - apply harmless_bind; [apply Hb | done].
Qed.

Lemma harmless_call_client call : harmless (call_client call).
Proof.
  intros w. unfold call_client.
  destruct (client (node w)); by apply untouched_kept.
Qed.

Lemma harmless_call_client_then call : harmless (call_client_then call).
Proof.
  intros w. unfold call_client_then.
  destruct (client (node w)) as [c|] eqn:Hc; [|apply untouched_refl].
  split; [done|]. split; [done|]. split; [done|]. simpl.
  intros c' [Hin | ->%list_elem_of_singleton]%elem_of_app; [by left | by right].
Qed.

Lemma harmless_launchAsync a : harmless (launchAsync a).
Proof.
  intros w. unfold launchAsync.
  destruct (negb (connected (node w)));
    [apply untouched_refl | apply harmless_call_client].
Qed.

Lemma harmless_joinSessionAsync s a : harmless (joinSessionAsync s a).
Proof.
  intros w. unfold joinSessionAsync.
  destruct (negb (connected (node w)));
    [apply untouched_refl | apply harmless_call_client].
Qed.

Lemma harmless_join id s a : harmless (join id s a).
Proof.
  apply harmless_bind; [apply harmless_joinSessionAsync|].
  intros _. apply harmless_lift. intros w. by apply untouched_kept.
Qed.

Lemma harmless_joinNodes_body status id : harmless (joinNodes_body status id).
Proof.
  intros w. unfold joinNodes_body.
  destruct (find_activeSession _ _); [|by apply untouched_kept].
  destruct (find_castV2App _ _); [apply harmless_join | by apply untouched_kept].
Qed.

Lemma harmless_joinNodes : harmless joinNodes.
Proof.
  intros w. unfold joinNodes.
  destruct (connected (node w)); [|apply untouched_refl].
  destruct (platformStatus (node w)); [|apply untouched_refl].
  apply harmless_for_each. apply harmless_joinNodes_body.
Qed.

Lemma harmless_initReceiver id rcv a : harmless (initReceiver id rcv a).
Proof.
  intros w. unfold initReceiver. destruct a as [a|]; [|apply untouched_refl].
  destruct (getAdapter a); by apply untouched_kept.
Qed.

Lemma harmless_sendPlatformCommandAsync command rcv :
  harmless (sendPlatformCommandAsync command rcv).
Proof.
  assert (∀ call (l : list ClientCall), harmless (call_client call ;;; ret l)) as Hc.
  { intros call l. apply harmless_bind; [apply harmless_call_client|].
    intros _. apply harmless_ret. }
  assert (∀ call (l : list ClientCall),
            harmless (call_client_then call ;;; ret l)) as Hc'.
  { intros call l. apply harmless_bind; [apply harmless_call_client_then|].
    intros _. apply harmless_ret. }
  intros w. unfold sendPlatformCommandAsync.
  repeat match goal with
         | |- context [if ?b then _ else _] => destruct b
         | |- context [match ?r with Some _ => _ | None => _ end] => destruct r
         end; first [apply untouched_refl | apply Hc | apply Hc'].
Qed.

Lemma harmless_sendCommandAsync id command : harmless (sendCommandAsync id command).
Proof.
  intros w. unfold sendCommandAsync.
  destruct (includes platformCommands (type command)).
  - apply harmless_bind; [apply harmless_sendPlatformCommandAsync|].
    intros l. apply harmless_ret.
  - assert (untouched w ((launchAsync (getCommandApp command)
                            ;;; ret (launch_promise (getCommandApp command))) w).2).
    { apply harmless_bind; [apply harmless_launchAsync|].
      intros _. apply harmless_ret. }
    destruct (receiver_of w id), (adapter_of w id); try done.
    destruct (includes mediaCommands (type command)); apply untouched_refl.
Qed.

Lemma harmless_launch_fulfilled id rcv a command :
  harmless (launch_fulfilled id rcv a command).
Proof.
  apply harmless_bind; [apply harmless_initReceiver|].
  intros _. apply harmless_sendCommandAsync.
Qed.

Lemma untouched_join_fulfilled id s a w : untouched w (join_fulfilled id s a w).
Proof.
  unfold join_fulfilled, try_catch.
  pose proof (harmless_initReceiver id {| rcv_app := a; rcv_session := s |} (Some a) w) as H.
  destruct (initReceiver _ _ _ w) as [[[]|e] w1]; [done|].
  eapply untouched_trans; [exact H | by apply untouched_kept].
Qed.

(** *** The core: flags, client held, pending connects *)

Lemma same_core_refl w : same_core w w.
Proof. done. Qed.

Lemma same_core_trans w1 w2 w3 : same_core w1 w2 → same_core w2 w3 → same_core w1 w3.
Proof. intros (? & ? & ? & ?) (? & ? & ? & ?). repeat split; congruence. Qed.

Lemma untouched_same_core w w' : untouched w w' → same_core w w'.
Proof. intros (Hn & Hc & _). unfold same_core, pendings. by rewrite Hn, Hc. Qed.

Lemma machine_ok_same_core w w' : same_core w w' → machine_ok w → machine_ok w'.
Proof.
  intros (Hcd & Hcg & Hcl & Hp) [H1 H2]. unfold machine_ok.
  rewrite Hcd, Hcg, Hcl, Hp. done.
Qed.

Lemma idle_machine_ok w : idle w → machine_ok w.
Proof.
  intros (Hcd & Hcg & Hcl & Hp). split.
  - intros c Hc. by apply Hp in Hc.
  - by rewrite Hcd.
Qed.

Lemma fmap_alter_same {A B} (f : A → B) (g : A → A) (i : nat) (l : list A) :
  (∀ x, f (g x) = f x) → f <$> alter g i l = f <$> l.
Proof.
  intros Hfg. revert i. induction l as [|x l IH]; intros [|i]; simpl; try done.
  - by rewrite Hfg.
  - f_equal. apply IH.
Qed.


Lemma pendings_cleared c c' w :
  pendings (on_client c (with_connect_pending false) w) !! c' = Some true →
  c' ≠ c ∧ pendings w !! c' = Some true.
Proof.
  unfold pendings. simpl. rewrite !list_lookup_fmap, list_lookup_alter.
  destruct (decide (c = c')) as [-> | Hne].
  - by destruct (clients w !! c').
  - done.
Qed.


Lemma client_is_pending c w :
  client_is connect_pending c w = true ↔ pendings w !! c = Some true.
Proof.
  unfold client_is, pendings. rewrite list_lookup_fmap.
  destruct (clients w !! c) as [x|]; simpl; [|done].
  split; [by intros -> | by intros [= ->]].
Qed.

(** *** disconnect, reconnect, connect *)

Lemma disconnect_idle w : machine_ok w → idle (disconnect w).
Proof.
  intros [H1 H2]. unfold idle. rewrite disconnect_node. simpl.
  repeat (split; [done|]).
  intros c. unfold pendings. rewrite disconnect_clients. unfold closed_clients.
  fold (pendings w).
  destruct (connected (node w) || connecting (node w)) eqn:Hfl.
  - destruct (client (node w)) as [c0|] eqn:Hcl.
    + intros Hc. apply (pendings_cleared c0 c w) in Hc as [Hne Hc].
      apply H1 in Hc as [_ Hc]. congruence.
    + intros Hc. apply H1 in Hc as [_ Hc]. congruence.
  - intros Hc. apply H1 in Hc as [Hc _].
    rewrite Hc, orb_true_r in Hfl. done.
Qed.



Lemma connect_machine_ok w : machine_ok w → machine_ok (connect w).
Proof.
  intros H.
  destruct (connected (node w)) eqn:Hcd.
  { rewrite connect_busy; [done | by rewrite Hcd]. }
  destruct (connecting (node w)) eqn:Hcg.
  { rewrite connect_busy; [done | by rewrite Hcd, Hcg]. }
  destruct (connect_idle w Hcd Hcg) as (Hn & Hcs & _).
  destruct H as [H1 H2]. split.
  - intros c. unfold pendings. rewrite Hn, Hcs, fmap_app. simpl.
    intros Hc. apply lookup_snoc_Some in Hc as [[_ Hc] | [-> _]].
    + apply H1 in Hc as [Hc _]. congruence.
    + by rewrite length_fmap.
  - by rewrite Hn.
Qed.

End Invariant.

Section Reachable.
Context {lib : Collaborators}.

Lemma guard_Some b w w' : guard b w = Some w' → b = true ∧ w = w'.
Proof. unfold guard. destruct b; [by intros [= ->] | done]. Qed.



Lemma status_fulfilled_same_core status w :
  same_core w (status_fulfilled status w).2.
Proof.
  unfold status_fulfilled.
  set (k := joinNodes ;;; lift (sendToRegisteredNodes (platform_msg status))).
  assert (harmless k) as Hk.
  { apply harmless_bind; [apply harmless_joinNodes|].
    intros _. apply harmless_lift. intros w0.
    rewrite sendToRegisteredNodes_spec. by apply untouched_kept. }
  unfold bind at 1. unfold lift at 1.
  eapply same_core_trans; [|apply untouched_same_core, Hk]. done.
Qed.



(** Why the assumption on [close()] matters: were the connect of a client
    to complete after [disconnect] dropped it, the callback would mark the
    node connected and then read a method of the null client. *)
Remark late_connect_completion w :
  client (node w) = None →
  (connect_fulfilled w).1 = Throw TypeError ∧
  connected (node (connect_fulfilled w).2) = true ∧
  client (node (connect_fulfilled w).2) = None.
Proof.
  intros Hc. unfold connect_fulfilled, bind, lift.
  rewrite setStatusOfRegisteredNodes_spec. simpl. by rewrite Hc.
Qed.

Lemma init_idle : idle init.
Proof. repeat split. intros c. unfold pendings. simpl. by destruct c. Qed.

(** *** The flags and the client *)

Lemma flags_ok_same_core w w' : same_core w w' → flags_ok w → flags_ok w'.
Proof.
  intros (Hcd & Hcg & Hcl & _). unfold flags_ok. by rewrite Hcd, Hcg, Hcl.
Qed.

Lemma flags_ok_idle w :
  connected (node w) = false → connecting (node w) = false →
  client (node w) = None → flags_ok w.
Proof.
  intros Hcd Hcg Hcl. unfold flags_ok. rewrite Hcd, Hcg, Hcl.
  split; [|done]. split; [by intros [? ?] | done].
Qed.

Lemma disconnect_flags_ok w : flags_ok (disconnect w).
Proof. apply flags_ok_idle; by rewrite disconnect_node. Qed.

Lemma chain_rejected_flags_ok w : flags_ok (chain_rejected w).
Proof.
  unfold chain_rejected.
  destruct (reconnect_flags (disconnect w)) as [Hcd Hcg].
  destruct (reconnect_node (disconnect w)) as (_ & _ & _ & Hcl).
  apply flags_ok_idle; [done | done |]. by rewrite Hcl, disconnect_node.
Qed.

Lemma connect_flags_ok w : flags_ok w → flags_ok (connect w).
Proof.
  intros H.
  destruct (connected (node w)) eqn:Hcd.
  { rewrite connect_busy; [done | by rewrite Hcd]. }
  destruct (connecting (node w)) eqn:Hcg.
  { rewrite connect_busy; [done | by rewrite Hcd, Hcg]. }
  destruct (connect_idle w Hcd Hcg) as (Hn & _).
  unfold flags_ok. rewrite Hn. simpl. split; [|done].
  split; [done | by eexists].
Qed.

Lemma connect_fulfilled_flags_ok w :
  flags_ok (try_catch connect_fulfilled (fun _ => chain_rejected) w).
Proof.
  unfold try_catch, connect_fulfilled, bind, lift.
  rewrite setStatusOfRegisteredNodes_spec. simpl.
  destruct (client (node w)) as [c|] eqn:Hc; [|apply chain_rejected_flags_ok].
  unfold flags_ok. simpl. rewrite Hc. split; [|done].
  split; [done | by eexists].
Qed.

Lemma register_flags_ok id w : flags_ok w → flags_ok (register id w).
Proof.
  intros H. unfold register. set (w1 := on_node _ w).
  assert (flags_ok w1) as H1 by done.
  destruct (Nat.eqb _ 1); [by apply connect_flags_ok | done].
Qed.

Lemma deregister_flags_ok id done w :
  (∀ w0, same_core w0 (done w0)) →
  flags_ok w → flags_ok (deregister id done w).
Proof.
  intros Hd H. unfold deregister. set (w1 := on_node _ w).
  assert (flags_ok w1) as H1 by done.
  destruct (closing (node w1)).
  { by apply (flags_ok_same_core w1). }
  eapply flags_ok_same_core; [apply Hd|].
  destruct (Nat.eqb _ 0); [|done].
  destruct (connected (node w1) || connecting (node w1)); [|done].
  apply disconnect_flags_ok.
Qed.

Lemma handle_flags_ok i w w' :
  handle i w = Some w' → flags_ok w → flags_ok w'.
Proof.
  intros Hh H. destruct i; simpl in Hh.
  - (* sender_created *)
    injection Hh as <-. unfold CastV2SenderNode.
    set (w2 := register id _).
    assert (flags_ok w2) as H2 by (by apply register_flags_ok).
    by destruct (connected (node w2)).
  - (* sender_closed *)
    injection Hh as <-. unfold sender_on_close.
    by apply deregister_flags_ok.
  - (* node_closed *)
    injection Hh as <-. unfold on_close.
    apply (flags_ok_same_core (disconnect (on_node (with_closing true) w)));
      [done | apply disconnect_flags_ok].
  - (* timer_fires *)
    apply guard_Some in Hh as [_ <-]. by apply connect_flags_ok.
  - (* client_error *)
    apply guard_Some in Hh as [_ <-]. apply chain_rejected_flags_ok.
  - (* client_closed *)
    apply guard_Some in Hh as [_ <-]. apply chain_rejected_flags_ok.
  - (* client_status *)
    apply guard_Some in Hh as [_ <-]. unfold try_catch.
    pose proof (status_fulfilled_same_core status w) as Hs.
    destruct (status_fulfilled status w) as [[[]|e] w1]; simpl in Hs.
    + by apply (flags_ok_same_core w).
    + apply (flags_ok_same_core w1); [done|].
      by apply (flags_ok_same_core w).
  - (* connect_resolves *)
    apply guard_Some in Hh as [_ <-]. apply connect_fulfilled_flags_ok.
  - (* connect_rejects *)
    apply guard_Some in Hh as [_ <-]. apply chain_rejected_flags_ok.
  - (* status_resolves *)
    apply guard_Some in Hh as [_ <-]. unfold try_catch.
    set (w0 := on_client c (with_status_pending false) w).
    assert (flags_ok w0) as H0 by done.
    pose proof (status_fulfilled_same_core status w0) as Hs.
    destruct (status_fulfilled status w0) as [[[]|e] w1]; simpl in Hs.
    + by apply (flags_ok_same_core w0).
    + apply chain_rejected_flags_ok.
  - (* status_rejects *)
    apply guard_Some in Hh as [_ <-]. apply chain_rejected_flags_ok.
  - (* join_resolves *)
    destruct (joins w !! k) as [[[id s] a]|]; [|done]. injection Hh as <-.
    eapply flags_ok_same_core;
      [apply untouched_same_core, untouched_join_fulfilled | done].
  - (* command_received *)
    injection Hh as <-.
    eapply flags_ok_same_core;
      [apply untouched_same_core, harmless_sendCommandAsync | done].
  - (* launch_resolves *)
    injection Hh as <-.
    eapply flags_ok_same_core;
      [apply untouched_same_core, harmless_launch_fulfilled | done].
  - (* receiver_status *)
    by injection Hh as <-.
  - (* receiver_closed *)
    by injection Hh as <-.
  - (* volume_resolves *)
    apply guard_Some in Hh as [_ <-].
    eapply flags_ok_same_core;
      [apply untouched_same_core, harmless_call_client | done].
  - (* volume_rejects *)
    by apply guard_Some in Hh as [_ <-].
Qed.


(** *** The continuations owed by volume requests *)
















(** Why the assumption on [close()] matters here too: were a volume
    request to answer after [disconnect] dropped its client, the
    continuation would read a method of the null client. *)
Remark late_volume_completion w :
  client (node w) = None → volume_fulfilled w = (Throw TypeError, w).
Proof. intros Hc. unfold volume_fulfilled, call_client. by rewrite Hc. Qed.

(** *** What is reachable *)





End Reachable.

(** ** Registration and the connection *)

Section Registration.
Context {lib : Collaborators}.

Lemma for_each_returns (P : World → Prop) body ids w :
  (∀ id w0, P w0 → ∃ w1, body id w0 = (Return tt, w1) ∧ P w1) →
  P w → ∃ w', for_each body ids w = (Return tt, w') ∧ P w'.
Proof.
  intros Hb. revert w. induction ids as [|id ids IH]; intros w Hw; simpl.
  - by exists w.
  - unfold bind. destruct (Hb id w Hw) as (w1 & -> & Hw1). by apply IH.
Qed.

Lemma joinNodes_returns w status :
  connected (node w) = true →
  platformStatus (node w) = Some status →
  is_Some (client (node w)) →
  ∃ w', joinNodes w = (Return tt, w').
Proof.
  intros Hcd Hps Hcl. unfold joinNodes. rewrite Hcd, Hps.
  destruct (for_each_returns
              (fun w0 => connected (node w0) = true ∧ is_Some (client (node w0)))
              (joinNodes_body status) (elements (registeredNodes (node w))) w)
    as (w' & Hw' & _); [|done|by exists w'].
  intros id w0 [Hcd0 [c Hc]]. unfold joinNodes_body.
  destruct (find_activeSession _ _) as [s|]; [|by eexists].
  destruct (find_castV2App _ _) as [a|]; [|by eexists].
  unfold join, bind, joinSessionAsync, call_client, lift.
  rewrite Hcd0, Hc. simpl. eexists. split; [done|]. simpl. by rewrite Hc.
Qed.

Lemma size_one_or_more (X : gset string) id :
  size ({[id]} ∪ X) ≠ 1 → X ≠ ∅.
Proof.
  intros Hs ->. apply Hs. rewrite (right_id_L ∅ (∪)). apply size_singleton.
Qed.

Lemma calls_ok_intro w :
  machine_ok w →
  (connected (node w) = true → connecting (node w) = false) →
  (connecting (node w) = true →
     ∃ c, client (node w) = Some c ∧ pendings w !! c = Some true) →
  (closing (node w) = false →
     (connected (node w) || connecting (node w) = true ↔
      registeredNodes (node w) ≠ ∅)) →
  (closing (node w) = true →
     connected (node w) = false ∧ connecting (node w) = false) →
  calls_ok w.
Proof. intros H0 H1 H2 H3 H4. exact (conj H0 (conj H1 (conj H2 (conj H3 H4)))). Qed.

Lemma register_calls_ok id w :
  closing (node w) = false → calls_ok w → calls_ok (register id w).
Proof.
  intros Hcl (Hok & H1 & H2 & H3 & H4). specialize (H3 Hcl).
  assert ({[id]} ∪ registeredNodes (node w) ≠ ∅) as Hne.
  { intros He. assert (id ∈ ({[id]} ∪ registeredNodes (node w))) as Hin
      by (apply elem_of_union; left; by apply elem_of_singleton).
    rewrite He in Hin. by apply not_elem_of_empty in Hin. }
  unfold register. set (w1 := on_node _ w).
  assert (machine_ok w1) as Hok1 by (by apply (machine_ok_same_core w)).
  destruct (connected (node w) || connecting (node w)) eqn:Hfl.
  - assert (calls_ok w1) as Hbusy.
    { apply calls_ok_intro.
      - done.
      - exact H1.
      - exact H2.
      - intros _. split; [by intros _ | by intros _].
      - intros Hx. simpl in Hx. congruence. }
    destruct (Nat.eqb _ 1); [|done]. by rewrite connect_busy.
  - apply orb_false_elim in Hfl as [Hcd Hcg].
    destruct (Nat.eqb_spec (size (registeredNodes (node w1))) 1) as [_ | Hs].
    + destruct (connect_idle w1 Hcd Hcg) as (Hn & Hcs & _).
      apply calls_ok_intro; [by apply connect_machine_ok | | | |];
        rewrite Hn; simpl.
      * done.
      * intros _. eexists. split; [done|].
        unfold pendings. rewrite Hcs, fmap_app. simpl.
        apply lookup_snoc_Some. right. by rewrite length_fmap.
      * intros _. split; [by intros _ | by intros _].
      * intros Hx. congruence.
    + apply size_one_or_more in Hs. by apply H3 in Hs.
Qed.

Lemma disconnect_calls_ok w :
  machine_ok w →
  (closing (node w) = false → registeredNodes (node w) = ∅) →
  calls_ok (disconnect w).
Proof.
  intros Hok He. pose proof (disconnect_idle w Hok) as Hi.
  destruct Hi as (Hcd & Hcg & Hcl & Hp).
  apply calls_ok_intro.
  - apply idle_machine_ok. by repeat split.
  - congruence.
  - congruence.
  - rewrite Hcd, Hcg, disconnect_node. simpl. intros Hx.
    split; [done|]. intros Hne. exfalso. by apply Hne, He.
  - done.
Qed.

Lemma calls_ok_emit e w : calls_ok w → calls_ok (emit e w).
Proof.
  intros (Hok & H). split; [|done]. by apply (machine_ok_same_core w).
Qed.

Lemma deregister_calls_ok id w :
  calls_ok w → calls_ok (deregister id (emit EvDone) w).
Proof.
  intros (Hok & H1 & H2 & H3 & H4).
  unfold deregister. set (w1 := on_node _ w).
  assert (machine_ok w1) as Hok1 by (by apply (machine_ok_same_core w)).
  assert (closing (node w1) = closing (node w)) as Hcl1 by done.
  assert (connected (node w1) = connected (node w)) as Hcd1 by done.
  assert (connecting (node w1) = connecting (node w)) as Hcg1 by done.
  destruct (closing (node w1)) eqn:Hcl; apply calls_ok_emit.
  { apply calls_ok_intro.
    - done.
    - exact H1.
    - exact H2.
    - intros Hx. congruence.
    - intros _. by apply H4. }
  symmetry in Hcl1. specialize (H3 Hcl1).
  destruct (Nat.eqb_spec (size (registeredNodes (node w1))) 0) as [Hz | Hnz].
  - apply size_zero_empty in Hz.
    destruct (connected (node w1) || connecting (node w1)) eqn:Hfl.
    + apply disconnect_calls_ok; [done | by intros _].
    + apply calls_ok_intro.
      * done.
      * exact H1.
      * exact H2.
      * intros _. rewrite Hfl, Hz. split; [done | by intros []].
      * intros Hx. congruence.
  - assert (registeredNodes (node w1) ≠ ∅) as Hne.
    { intros He. apply Hnz. by apply size_zero_empty. }
    assert (registeredNodes (node w) ≠ ∅) as Hne0.
    { intros He. apply Hne. simpl. rewrite He. apply empty_difference_L. }
    apply calls_ok_intro.
    + done.
    + exact H1.
    + exact H2.
    + intros _. split; [by intros _ |]. intros _. by apply H3.
    + intros Hx. congruence.
Qed.

Lemma on_close_calls_ok w : calls_ok w → calls_ok (on_close (emit EvDone) w).
Proof.
  intros (Hok & _). unfold on_close. apply calls_ok_emit.
  apply disconnect_calls_ok; [|done].
  by apply (machine_ok_same_core w).
Qed.

Lemma connect_resolves_spec c w :
  pendings w !! c = Some true →
  client (node w) = Some c →
  ∃ w1, handle (connect_resolves c) w = Some w1 ∧
        node w1 = with_flags true false (node w) ∧
        clients w1 = alter (with_status_pending true) c
                       (alter (with_connect_pending false) c (clients w)).
Proof.
  intros Hp Hc. apply client_is_pending in Hp. simpl. rewrite Hp. simpl.
  unfold try_catch, connect_fulfilled, bind, lift.
  rewrite setStatusOfRegisteredNodes_spec. simpl. rewrite Hc.
  eexists. split; [done|]. done.
Qed.

Lemma status_resolves_spec c status w :
  client_is status_pending c w = true →
  connected (node w) = true →
  is_Some (client (node w)) →
  ∃ w2, handle (status_resolves c (Some status)) w = Some w2 ∧
        node w2 = with_platformStatus (Some status) (node w) ∧
        clients w2 = alter (with_status_pending false) c (clients w).
Proof.
  intros Hp Hcd Hcl. simpl. rewrite Hp. simpl.
  set (w0 := on_client c (with_status_pending false) w).
  unfold try_catch, status_fulfilled, bind, lift.
  set (w3 := on_node (with_platformStatus (Some status)) w0).
  destruct (joinNodes_returns w3 status) as (w4 & Hj); [done | done | done |].
  pose proof (harmless_joinNodes w3) as (Hn4 & Hc4 & _).
  rewrite Hj in Hn4, Hc4 |- *. simpl in Hn4, Hc4.
  rewrite sendToRegisteredNodes_spec.
  eexists. split; [done|]. simpl. by rewrite Hn4, Hc4.
Qed.

(** Settling turns a connect under way into a connection and changes
    nothing else of the node's flags. *)
Lemma settle_calls_ok status w :
  calls_ok w →
  calls_ok (settle status w) ∧
  connecting (node (settle status w)) = false ∧
  closing (node (settle status w)) = closing (node w) ∧
  registeredNodes (node (settle status w)) = registeredNodes (node w) ∧
  connected (node (settle status w)) = connected (node w) || connecting (node w).
Proof.
  intros Hall. pose proof Hall as (Hok & H1 & H2 & H3 & H4).
  assert (connecting (node w) = false → connected (node w) =
            connected (node w) || connecting (node w)) as Hor.
  { intros ->. by rewrite orb_false_r. }
  unfold settle.
  destruct (client (node w)) as [c|] eqn:Hc; cycle 1.
  { destruct (connecting (node w)) eqn:Hcg.
    - destruct H2 as (c & Hc' & _); [done | congruence].
    - split; [exact Hall|]. split; [done|]. split; [done|]. split; [done|].
      by apply Hor. }
  destruct (client_is connect_pending c w) eqn:Hp; cycle 1.
  { simpl. rewrite Hp. simpl.
    destruct (connecting (node w)) eqn:Hcg.
    - destruct H2 as (c' & Hc' & Hp'); [done|].
      assert (c' = c) as -> by congruence.
      apply client_is_pending in Hp'. congruence.
    - split; [exact Hall|]. split; [done|]. split; [done|]. split; [done|].
      by apply Hor. }
  apply client_is_pending in Hp.
  destruct Hok as [Hm1 Hm2]. destruct (Hm1 c Hp) as [Hcg _].
  assert (closing (node w) = false) as Hcl.
  { destruct (closing (node w)) eqn:E; [|done].
    destruct H4 as [_ ?]; [done | congruence]. }
  assert (is_Some (clients w !! c)) as [cs Hcs].
  { unfold pendings in Hp. rewrite list_lookup_fmap in Hp.
    destruct (clients w !! c); [by eexists | done]. }
  destruct (connect_resolves_spec c w Hp Hc) as (w1 & -> & Hn1 & Hc1).
  destruct (status_resolves_spec c status w1) as (w2 & -> & Hn2 & Hc2).
  { unfold client_is. rewrite Hc1, !list_lookup_alter_eq, Hcs. done. }
  { by rewrite Hn1. }
  { rewrite Hn1. simpl. by rewrite Hc. }
  simpl.
  assert (machine_ok w2) as Hok2.
  { split; rewrite Hn2, Hn1; simpl; [|by rewrite Hc].
    intros c'. unfold pendings. rewrite Hc2, Hc1.
    rewrite !(fmap_alter_same connect_pending (with_status_pending _)) by done.
    intros Hc'. apply (pendings_cleared c c' w) in Hc' as [Hne Hc'].
    apply Hm1 in Hc' as [_ Hc']. congruence. }
  split; [|by rewrite Hn2, Hn1; simpl; rewrite Hcg, orb_true_r].
  apply calls_ok_intro; [done | | | |]; rewrite Hn2, Hn1; simpl.
  - done.
  - done.
  - intros _. split; [|done]. intros _. apply H3; [done|].
    by rewrite Hcg, orb_true_r.
  - intros Hx. congruence.
Qed.

Lemma do_owner_call_calls_ok closed c calls w :
  closing (node w) = closed →
  no_register_after_close closed (c :: calls) = true →
  calls_ok w →
  calls_ok (do_owner_call w c) ∧
  ∃ closed', closing (node (do_owner_call w c)) = closed' ∧
             no_register_after_close closed' calls = true.
Proof.
  intros Hcl Hno Hok. destruct c as [[id | id | status] |]; simpl in *.
  - apply andb_prop in Hno as [Hc Hno]. apply negb_true_iff in Hc.
    rewrite Hc in Hcl, Hno.
    split; [by apply register_calls_ok|]. exists false. split; [|done].
    unfold register. set (w1 := on_node _ w).
    destruct (Nat.eqb _ 1); [|done].
    destruct (connected (node w1) || connecting (node w1)) eqn:Hfl.
    + by rewrite connect_busy.
    + apply orb_false_elim in Hfl as [Hcd Hcg].
      destruct (connect_idle w1 Hcd Hcg) as (-> & _). done.
  - split; [by apply deregister_calls_ok|]. exists closed. split; [|done].
    unfold deregister. set (w1 := on_node _ w).
    change (closing (node w1)) with (closing (node w)). rewrite Hcl.
    destruct closed; [exact Hcl|]. simpl.
    destruct (Nat.eqb _ 0); [|exact Hcl].
    destruct (connected (node w) || connecting (node w)); [|exact Hcl].
    rewrite disconnect_node. exact Hcl.
  - destruct (settle_calls_ok status w Hok) as (? & _ & Hc & _).
    split; [done|]. exists closed. by rewrite Hc.
  - split; [by apply on_close_calls_ok|]. exists true. split; [|done].
    unfold on_close. simpl. by rewrite disconnect_node.
Qed.

Lemma init_calls_ok : calls_ok init.
Proof.
  split; [apply idle_machine_ok, init_idle|]. repeat split; try done.
Qed.

Lemma owner_calls_ok closed calls w :
  closing (node w) = closed →
  no_register_after_close closed calls = true →
  calls_ok w → calls_ok (foldl do_owner_call w calls).
Proof.
  revert closed w. induction calls as [|c calls IH]; intros closed w Hcl Hno Hok.
  - done.
  - simpl foldl.
    destruct (do_owner_call_calls_ok closed c calls w Hcl Hno Hok)
      as (Hok' & closed' & Hcl' & Hno').
    by apply (IH closed').
Qed.

(** What the code keeps of the equivalence, on a transport that never
    fails.  After any sequence of register and deregister calls on a fresh
    connection node (with the close handler of the node possibly among
    them, and no registration after it), once the connect attempt under
    way has succeeded, the node is connected iff some sender is
    registered and the node is not closing.  The first registration
    starts a connect on a new client; deregistering the last sender of a
    busy node closes the client held. *)
Theorem connected_iff_registered_on_success calls status :
  no_register_after_close false calls = true →
  let w := settle status (foldl do_owner_call init calls) in
  (connected (node w) = true ↔
     registeredNodes (node w) ≠ ∅ ∧ closing (node w) = false) ∧
  (∀ w0 id,
     registeredNodes (node w0) = ∅ →
     connected (node w0) = false → connecting (node w0) = false →
     connecting (node (register id w0)) = true ∧
     client (node (register id w0)) = Some (length (clients w0)) ∧
     EvClient (length (clients w0)) client_connect ∈ trace (register id w0)) ∧
  (∀ w0 id c,
     closing (node w0) = false →
     registeredNodes (node w0) = {[id]} →
     connected (node w0) || connecting (node w0) = true →
     client (node w0) = Some c →
     let w1 := deregister id (emit EvDone) w0 in
     connected (node w1) = false ∧ connecting (node w1) = false ∧
     client (node w1) = None ∧ EvClient c client_close ∈ trace w1).
Proof.
  intros Hno w. split; [|split].
  - pose proof (owner_calls_ok false calls init eq_refl Hno init_calls_ok) as Hok.
    destruct (settle_calls_ok status _ Hok)
      as ((_ & _ & _ & H3 & H4) & Hcg & _). fold w in H3, H4, Hcg.
    rewrite Hcg, orb_false_r in H3. split.
    + intros Hcd. destruct (closing (node w)) eqn:Hcl.
      * destruct H4 as [? _]; [done | congruence].
      * split; [|done]. by apply H3.
    + intros [Hne Hcl]. by apply H3.
  - intros w0 id He Hcd Hcg. unfold register. set (w1 := on_node _ w0).
    assert (size (registeredNodes (node w1)) = 1) as ->.
    { simpl. rewrite He, (right_id_L ∅ (∪)). apply size_singleton. }
    simpl. destruct (connect_idle w1 Hcd Hcg) as (-> & _ & _ & _ & _ & ->).
    simpl. split; [done|]. split; [done|].
    repeat (rewrite elem_of_app || rewrite elem_of_cons). naive_solver.
  - intros w0 id c Hcl He Hfl Hc w1. subst w1. unfold deregister.
    set (w1 := on_node _ w0).
    change (closing (node w1)) with (closing (node w0)). rewrite Hcl.
    assert (registeredNodes (node w1) = ∅) as He1.
    { simpl. rewrite He. apply difference_diag_L. }
    rewrite He1, size_empty. simpl. rewrite Hfl. simpl.
    rewrite disconnect_node, disconnect_of_empty by done. simpl.
    split; [done|]. split; [done|]. split; [done|].
    unfold close_events. simpl. rewrite Hfl, Hc.
    repeat (rewrite elem_of_app || rewrite elem_of_cons). naive_solver.
Qed.

(** C4 (the code departs from the claim).  A node whose client failed
    waits for its retry, neither connected nor connecting.  When its last
    sender deregisters then, [deregister] finds nothing to disconnect and
    leaves the reconnect timer pending; [connect], run by the timer, looks
    at the flags only.  Once that connect has succeeded and its status
    query has answered, the node is connected, and holds a client,
    although no sender is registered and the node is not closing. *)
Theorem retry_outlives_last_sender w id t status :
  registeredNodes (node w) = {[id]} →
  closing (node w) = false →
  connected (node w) = false →
  connecting (node w) = false →
  timers w !! t = Some true →
  let c := length (clients w) in
  ∃ w', run [sender_closed id; timer_fires t; connect_resolves c;
             status_resolves c (Some status)] w = Some w' ∧
        connected (node w') = true ∧
        client (node w') = Some c ∧
        registeredNodes (node w') = ∅ ∧
        closing (node w') = false.
Proof.
  intros Hreg Hcl Hcd Hcg Ht c.
  set (wa := sender_on_close id w).
  assert (node wa = with_registeredNodes ∅ (node w) ∧
          clients wa = clients w ∧ timers wa = timers w) as (Hna & Hca & Hta).
  { unfold wa, sender_on_close, deregister. set (w1 := on_node _ w).
    assert (registeredNodes (node w1) = ∅) as He1.
    { simpl. rewrite Hreg. apply difference_diag_L. }
    assert (node w1 = with_registeredNodes ∅ (node w)) as Hn1.
    { simpl. by rewrite Hreg, difference_diag_L. }
    rewrite He1, size_empty, Hn1. simpl. by rewrite Hcl, Hcd, Hcg. }
  set (wt := on_timers (fun l => <[t := false]> l) wa).
  destruct (connect_idle wt) as (Hnb & Hcb & _);
    [simpl; by rewrite Hna | simpl; by rewrite Hna |].
  change (clients wt) with (clients wa) in Hnb, Hcb. rewrite Hca in Hnb, Hcb.
  change (node wt) with (node wa) in Hnb. rewrite Hna in Hnb. fold c in Hnb.
  destruct (connect_resolves_spec c (connect wt)) as (wc & Hhc & Hnc & Hcc).
  { unfold pendings. rewrite Hcb, fmap_app, lookup_app_r by (by rewrite length_fmap).
    by rewrite length_fmap, Nat.sub_diag. }
  { by rewrite Hnb. }
  destruct (status_resolves_spec c status wc) as (wd & Hhd & Hnd & _).
  { unfold client_is. rewrite Hcc, !list_lookup_alter_eq, Hcb.
    rewrite lookup_app_r by done. by rewrite Nat.sub_diag. }
  { by rewrite Hnc. }
  { rewrite Hnc, Hnb. by eexists. }
  exists wd. split.
  - assert (handle (timer_fires t) wa = Some (connect wt)) as Hhb
      by (simpl; by rewrite Hta, Ht).
    cbn [run]. change (handle (sender_closed id) w) with (Some wa).
    cbn [mbind option_bind]. rewrite Hhb.
    cbn [mbind option_bind]. rewrite Hhc.
    cbn [mbind option_bind]. by rewrite Hhd.
  - rewrite Hnd, Hnc, Hnb. simpl. by rewrite Hcl.
Qed.

End Registration.

(** ** A pending reconnect and the close handler *)

Section Closing.
Context {lib : Collaborators}.

Lemma closed_clients_length w : length (closed_clients w) = length (clients w).
Proof.
  unfold closed_clients.
  destruct (connected (node w) || connecting (node w)); [|done].
  destruct (client (node w)); [|done]. apply length_alter.
Qed.

(** C3 (the code departs from the claim).  The close handler leaves a
    pending reconnect timer in place, and [connect] does not look at
    [closing]: when the timer fires after the close handler ran, a new
    client is created and a connect is started on the closing node. *)
Theorem pending_reconnect_survives_close w t :
  timers w !! t = Some true →
  let w1 := on_close (emit EvDone) w in
  timers w1 !! t = Some true ∧
  ∃ w2, handle (timer_fires t) w1 = Some w2 ∧
        closing (node w2) = true ∧
        connecting (node w2) = true ∧
        client (node w2) = Some (length (clients w)) ∧
        EvClient (length (clients w)) client_connect ∈ trace w2.
Proof.
  intros Ht w1.
  assert (timers w1 = timers w) as Htm.
  { unfold w1, on_close. simpl. by rewrite disconnect_timers. }
  rewrite Htm. split; [done|].
  change (handle (timer_fires t) w1)
    with (guard (default false (timers w1 !! t))
            (connect (on_timers (fun l => <[t := false]> l) w1))).
  rewrite Htm, Ht. simpl guard.
  eexists. split; [done|].
  set (w0 := on_timers _ w1).
  assert (node w0 = with_flags false false (with_platformStatus None
            (with_client None (with_closing true (node w))))) as Hn.
  { unfold w0, w1, on_close. simpl. by rewrite disconnect_node. }
  assert (length (clients w0) = length (clients w)) as Hl.
  { unfold w0, w1, on_close. simpl.
    by rewrite disconnect_clients, closed_clients_length. }
  destruct (connect_idle w0) as (Hn' & _ & _ & _ & _ & Ht');
    [by rewrite Hn | by rewrite Hn |].
  rewrite Hn', Ht', Hn, Hl. simpl.
  split; [done|]. split; [done|]. split; [done|].
  repeat (rewrite elem_of_app || rewrite elem_of_cons). naive_solver.
Qed.

End Closing.

(** ** The join protocol *)

Section JoinProtocol.
Context {lib : Collaborators}.

(** [find] returns the first element that passes the test. *)
Lemma find_first {A} (p : A → bool) (l : list A) (x : A) :
  find p l = Some x ↔
  ∃ before after, l = before ++ x :: after ∧ p x = true ∧
                  ∀ y, y ∈ before → p y = false.
Proof.
  induction l as [|z l IH]; simpl.
  - split; [done|]. intros (before & after & H & _). by destruct before.
  - destruct (p z) eqn:Hz.
    + split.
      * intros [= ->]. exists [], l. split; [done|]. split; [done|].
        intros y Hy. by apply not_elem_of_nil in Hy.
      * intros ([|b before] & after & H & Hx & Hb).
        -- by injection H as -> _.
        -- injection H as -> _. rewrite Hb in Hz; [done | apply list_elem_of_here].
    + rewrite IH. split.
      * intros (before & after & -> & Hx & Hb). exists (z :: before), after.
        split; [done|]. split; [done|].
        intros y [-> | Hy]%elem_of_cons; [done | by apply Hb].
      * intros ([|b before] & after & H & Hx & Hb).
        -- injection H as -> _. congruence.
        -- injection H as -> ->. exists before, after. split; [done|].
           split; [done|]. intros y Hy. by apply Hb, list_elem_of_further.
Qed.

Lemma find_nothing {A} (p : A → bool) (l : list A) :
  find p l = None ↔ ∀ y, y ∈ l → p y = false.
Proof.
  induction l as [|z l IH]; simpl.
  - split; [|done]. intros _ y Hy. by apply not_elem_of_nil in Hy.
  - destruct (p z) eqn:Hz.
    + split; [done|]. intros H. rewrite H in Hz; [done | apply list_elem_of_here].
    + rewrite IH. split.
      * intros H y [-> | Hy]%elem_of_cons; [done | by apply H].
      * intros H y Hy. by apply H, list_elem_of_further.
Qed.

Lemma same_app_true session a : same_app session a = true ↔ APP_ID a = appId session.
Proof. unfold same_app. apply String.eqb_eq. Qed.

Lemma same_app_false session a : same_app session a = false ↔ APP_ID a ≠ appId session.
Proof. unfold same_app. apply String.eqb_neq. Qed.

Lemma supports_true supported session :
  existsb (same_app session) supported = true ↔
  ∃ a, a ∈ supported ∧ APP_ID a = appId session.
Proof.
  rewrite existsb_exists. split; intros (a & Ha & Hs); exists a.
  - by rewrite list_elem_of_In, <- same_app_true.
  - by rewrite <- list_elem_of_In, same_app_true.
Qed.

Lemma supports_false supported session :
  existsb (same_app session) supported = false ↔
  ∀ a, a ∈ supported → APP_ID a ≠ appId session.
Proof.
  rewrite <- not_true_iff_false, supports_true. split.
  - intros H a Ha He. apply H. by exists a.
  - intros H (a & Ha & He). by apply (H a).
Qed.

(** The decision of the loop body, in the words of the protocol. *)
Lemma instruction_join supported status session a :
  instruction supported status = Some (session, a) ↔
  ∃ apps, applications status = Some apps ∧
          first_session supported apps session ∧
          first_capability supported session a.
Proof.
  unfold instruction, find_activeSession, find_castV2App, first_session,
    first_capability.
  destruct (applications status) as [apps|]; cycle 1.
  { split; [done|]. by intros (apps & ? & _). }
  split.
  - destruct (find _ apps) as [s|] eqn:Hs; [|done].
    destruct (find _ supported) as [a'|] eqn:Ha; [|done].
    intros [= -> ->]. exists apps. split; [done|].
    apply find_first in Hs as (before & after & -> & Hp & Hb).
    apply find_first in Ha as (before' & after' & -> & Hp' & Hb').
    split.
    + exists before, after. split; [done|]. split.
      * intros s a0 Hs Ha0. apply Hb in Hs.
        by apply (proj1 (supports_false _ _) Hs).
      * by apply supports_true.
    + exists before', after'. split; [done|]. split; [by apply same_app_true|].
      intros a0 Ha0. by apply same_app_false, Hb'.
  - intros (apps' & [= <-] & (before & after & -> & Hb & Hex)
            & (before' & after' & -> & Hid & Hb')).
    assert (find (fun session => existsb (same_app session)
                    (before' ++ a :: after')) (before ++ session :: after)
            = Some session) as ->.
    { apply find_first. exists before, after. split; [done|].
      split; [by apply supports_true|].
      intros s Hs. apply supports_false. intros a0 Ha0. by apply (Hb s). }
    assert (find (same_app session) (before' ++ a :: after') = Some a) as ->.
    { apply find_first. exists before', after'. split; [done|].
      split; [by apply same_app_true|].
      intros a0 Ha0. by apply same_app_false, Hb'. }
    done.
Qed.

Lemma instruction_unjoin supported status :
  instruction supported status = None ↔ no_match supported status.
Proof.
  unfold instruction, find_activeSession, find_castV2App, no_match.
  destruct (applications status) as [apps|]; cycle 1.
  { split; [by intros _ ? ? ? ? | done]. }
  destruct (find _ apps) as [s|] eqn:Hs.
  - apply find_first in Hs as (before & after & -> & Hp & Hb).
    apply supports_true in Hp as (a & Ha & He).
    destruct (find (same_app s) supported) as [a'|] eqn:Ha'.
    + split; [done|]. intros H. exfalso.
      apply (H _ s a eq_refl); [|done|done].
      apply elem_of_app. right. apply list_elem_of_here.
    + exfalso. apply (proj1 (find_nothing _ _)) with (y := a) in Ha'; [|done].
      by apply same_app_false in Ha'.
  - split; [|done]. intros _ apps' s a [= <-] Hs' Ha.
    apply (proj1 (find_nothing _ _)) with (y := s) in Hs; [|done].
    by apply (proj1 (supports_false _ _) Hs).
Qed.

(** *** The loop *)

Lemma joinNodes_body_on status c id w :
  connected (node w) = true → client (node w) = Some c →
  joinNodes_body status id w = (Return tt, body_on status c w id).
Proof.
  intros Hcd Hc. unfold joinNodes_body, body_on, instruction.
  destruct (find_activeSession _ _) as [s|]; [|done].
  destruct (find_castV2App _ _) as [a|]; [|done].
  unfold join, bind, joinSessionAsync, call_client, lift. by rewrite Hcd, Hc.
Qed.

Lemma body_on_node status c id w : node (body_on status c w id) = node w.
Proof. unfold body_on. by destruct (instruction _ _) as [[s a]|]. Qed.

Lemma supported_of_detach id id' w :
  supported_of (on_senders (alter detach id') w) id = supported_of w id.
Proof.
  unfold supported_of. simpl. destruct (decide (id' = id)) as [-> | Hne].
  - rewrite lookup_alter_eq. by destruct (senders w !! id).
  - by rewrite lookup_alter_ne.
Qed.

Lemma body_on_supported status c id' id w :
  supported_of (body_on status c w id') id = supported_of w id.
Proof.
  unfold body_on. destruct (instruction _ _) as [[s a]|]; [done|].
  apply supported_of_detach.
Qed.

Lemma loop_on status c ids w :
  connected (node w) = true → client (node w) = Some c →
  for_each (joinNodes_body status) ids w =
    (Return tt, foldl (body_on status c) w ids).
Proof.
  revert w. induction ids as [|id ids IH]; intros w Hcd Hc; simpl; [done|].
  unfold bind. rewrite (joinNodes_body_on status c) by done.
  apply IH; by rewrite body_on_node.
Qed.

Lemma loop_spec sup status c ids w :
  (∀ id, supported_of w id = sup id) →
  let w' := foldl (body_on status c) w ids in
  node w' = node w ∧
  (∀ id, supported_of w' id = sup id) ∧
  joins w' = joins w ++ joins_for sup status ids ∧
  trace w' = trace w ++ events_for sup status c ids ∧
  ∀ id, senders w' !! id =
        if decide (id ∈ ids)
        then match instruction (sup id) status with
             | Some _ => senders w !! id
             | None => detach <$> senders w !! id
             end
        else senders w !! id.
Proof.
  revert w. induction ids as [|i ids IH]; intros w Hsup; simpl.
  - rewrite !app_nil_r. repeat split; done.
  - destruct (IH (body_on status c w i)) as (Hn & Hs & Hj & Ht & Hl).
    { intros id. by rewrite body_on_supported. }
    rewrite Hn, Hj, Ht, body_on_node.
    split; [done|]. split; [done|].
    unfold joins_for, events_for in *. simpl.
    unfold body_on in *. rewrite Hsup in *.
    destruct (instruction (sup i) status) as [[s a]|] eqn:Hi; simpl.
    + rewrite <- !app_assoc. split; [done|]. split; [done|].
      intros id. rewrite Hl. simpl.
      destruct (decide (id = i)) as [-> | Hne].
      * rewrite (decide_True (P := i ∈ i :: ids)) by apply list_elem_of_here.
        rewrite Hi. by destruct (decide (i ∈ ids)).
      * destruct (decide (id ∈ ids)) as [Hin | Hnin].
        -- rewrite decide_True; [done | by apply list_elem_of_further].
        -- rewrite decide_False; [done|].
           intros [?|?]%elem_of_cons; congruence.
    + rewrite <- !app_assoc. split; [done|]. split; [done|].
      intros id. rewrite Hl. simpl.
      destruct (decide (id = i)) as [-> | Hne].
      * rewrite (decide_True (P := i ∈ i :: ids)) by apply list_elem_of_here.
        rewrite Hi, lookup_alter_eq.
        destruct (decide (i ∈ ids)); by destruct (senders w !! i).
      * rewrite lookup_alter_ne by done.
        destruct (decide (id ∈ ids)) as [Hin | Hnin].
        -- rewrite decide_True; [done | by apply list_elem_of_further].
        -- rewrite decide_False; [done|].
           intros [?|?]%elem_of_cons; congruence.
Qed.

End JoinProtocol.

Section JoinSettled.
Context {lib : Collaborators}.

Lemma attach_attach a s x : attach a s (attach a s x) = attach a s x.
Proof. unfold attach. by destruct (getAdapter a). Qed.

Lemma attach_supported a s x :
  supportedApplications (attach a s x) = supportedApplications x.
Proof. unfold attach. by destruct (getAdapter a). Qed.

Lemma outcome_supported status x :
  supportedApplications (outcome status x) = supportedApplications x.
Proof.
  unfold outcome. destruct (instruction _ _) as [[s a]|]; [|done].
  apply attach_supported.
Qed.

Lemma outcome_outcome status x : outcome status (outcome status x) = outcome status x.
Proof.
  unfold outcome at 1. rewrite outcome_supported. unfold outcome.
  destruct (instruction _ _) as [[s a]|]; [apply attach_attach | done].
Qed.

Lemma join_fulfilled_spec id s a w :
  node (join_fulfilled id s a w) = node w ∧
  joins (join_fulfilled id s a w) = joins w ∧
  ∀ id', senders (join_fulfilled id s a w) !! id' =
         if decide (id = id') then attach a s <$> senders w !! id
         else senders w !! id'.
Proof.
  unfold join_fulfilled, try_catch, initReceiver, attach.
  destruct (getAdapter a) as [ad|]; simpl; (split; [done|]); (split; [done|]);
    intros id'; rewrite !lookup_alter;
    destruct (decide (id = id')); try done.
  all: rewrite ?decide_True by done; by destruct (senders w !! id).
Qed.

Lemma settle_fold_spec sup status js w id :
  (∀ id' s a, (id', s, a) ∈ js → instruction (sup id') status = Some (s, a)) →
  let w' := foldl (fun w '(id, activeSession, castV2App) =>
                     join_fulfilled id activeSession castV2App w) w js in
  node w' = node w ∧ joins w' = joins w ∧
  senders w' !! id =
    if decide (id ∈ js.*1.*1)
    then match instruction (sup id) status with
         | Some (s, a) => attach a s <$> senders w !! id
         | None => senders w !! id
         end
    else senders w !! id.
Proof.
  revert w. induction js as [|[[i s] a] js IH]; intros w Hjs; simpl.
  { repeat split. }
  destruct (join_fulfilled_spec i s a w) as (Hn1 & Hj1 & Hs1).
  destruct (IH (join_fulfilled i s a w)) as (Hn & Hj & Hs).
  { intros id' s' a' Hin. apply Hjs. by apply list_elem_of_further. }
  rewrite Hn, Hj, Hn1, Hj1. split; [done|]. split; [done|].
  rewrite Hs, Hs1.
  assert (instruction (sup i) status = Some (s, a)) as Hi
    by apply Hjs, list_elem_of_here.
  destruct (decide (i = id)) as [-> | Hne].
  - rewrite (decide_True (P := id ∈ id :: _)) by apply list_elem_of_here.
    rewrite Hi. destruct (decide (id ∈ js.*1.*1)); [|done].
    destruct (senders w !! id); simpl; [|done]. by rewrite attach_attach.
  - destruct (decide (id ∈ js.*1.*1)) as [Hin | Hnin].
    + rewrite decide_True; [done | by apply list_elem_of_further].
    + rewrite decide_False; [done|].
      intros [?|?]%elem_of_cons; [congruence | done].
Qed.

Lemma joins_for_entries sup status ids id s a :
  (id, s, a) ∈ joins_for sup status ids ↔
  id ∈ ids ∧ instruction (sup id) status = Some (s, a).
Proof.
  unfold joins_for. rewrite list_elem_of_omap. split.
  - intros (id' & Hin & Hf).
    destruct (instruction (sup id') status) as [[s' a']|] eqn:Hi; [|done].
    simpl in Hf. injection Hf as <- <- <-. done.
  - intros [Hin Hi]. exists id. split; [done|]. by rewrite Hi.
Qed.

Lemma joins_for_ids sup status ids id :
  id ∈ (joins_for sup status ids).*1.*1 ↔
  id ∈ ids ∧ is_Some (instruction (sup id) status).
Proof.
  split.
  - intros (y & Hy & Hin)%list_elem_of_fmap.
    apply list_elem_of_fmap in Hin as (z & Hz & Hin). destruct z as [[i s] a].
    simpl in *. subst y. simpl in *. subst i.
    apply joins_for_entries in Hin as [? ?]. split; [done | by eexists].
  - intros [Hin [[s a] Hi]]. apply list_elem_of_fmap. exists (id, s).
    split; [done|]. apply list_elem_of_fmap.
    exists (id, s, a). split; [done|]. by apply joins_for_entries.
Qed.

(** What the protocol and the completion of its joins leave in the store. *)
Lemma joinNodes_settled_spec w status c :
  connected (node w) = true →
  platformStatus (node w) = Some status →
  client (node w) = Some c →
  joins w = [] →
  node (joinNodes_settled w) = node w ∧
  joins (joinNodes_settled w) = [] ∧
  ∀ id, senders (joinNodes_settled w) !! id =
        if decide (id ∈ registeredNodes (node w))
        then outcome status <$> senders w !! id
        else senders w !! id.
Proof.
  intros Hcd Hps Hc Hj. unfold joinNodes_settled, joinNodes.
  rewrite Hcd, Hps, (loop_on status c) by done. simpl snd.
  set (ids := elements (registeredNodes (node w))).
  destruct (loop_spec (supported_of w) status c ids w)
    as (Hn & Hsup & Hjl & _ & Hsl); [done|].
  set (wl := foldl (body_on status c) w ids) in *.
  unfold settle_joins. rewrite Hjl, Hj. simpl.
  assert (∀ id, let w' := foldl (fun w '(id, activeSession, castV2App) =>
                     join_fulfilled id activeSession castV2App w)
                     (on_joins (fun _ => []) wl)
                     (joins_for (supported_of w) status ids) in
          node w' = node w ∧ joins w' = [] ∧
          senders w' !! id =
            if decide (id ∈ registeredNodes (node w))
            then outcome status <$> senders w !! id
            else senders w !! id) as H.
  { intros id.
    destruct (settle_fold_spec (supported_of w) status
                (joins_for (supported_of w) status ids)
                (on_joins (fun _ => []) wl) id) as (Hn' & Hj' & Hs').
    { intros id' s a Hin. by apply joins_for_entries in Hin as [_ ?]. }
    simpl. rewrite Hn', Hj', Hs'. simpl. rewrite Hn.
    split; [done|]. split; [done|]. rewrite Hsl.
    destruct (decide (id ∈ registeredNodes (node w))) as [Hin | Hnin].
    - assert (id ∈ ids) as Hin' by by apply elem_of_elements.
      rewrite (decide_True (P := id ∈ ids)) by done.
      unfold outcome, supported_of.
      destruct (senders w !! id) as [x|] eqn:Hx; simpl.
      + destruct (instruction (supportedApplications x) status) as [[s a]|] eqn:Hi.
        * rewrite decide_True; [done|]. apply joins_for_ids. split; [done|].
          unfold supported_of. rewrite Hx. simpl. by rewrite Hi.
        * by destruct (decide _).
      + repeat case_match; done.
    - assert (id ∉ ids) as Hnin' by (unfold ids; by rewrite elem_of_elements).
      rewrite (decide_False (P := id ∈ ids)) by done.
      rewrite decide_False; [done|].
      intros [? _]%joins_for_ids. done. }
  split; [apply (H "")|]. split; [apply (H "")|]. intros id. apply H.
Qed.

(** C5.  On a connected node with a status snapshot, [joinNodes] returns
    and treats every registered sender by the snapshot alone: when some
    session of the snapshot runs an application the sender supports, it
    places one join, of the first such session with the first supported
    application of that identifier, and leaves the sender as it is until
    the join fulfils; when no session matches, it places no join and
    unjoins the sender; one of the two is the case.  With no earlier join
    still pending, once the joins have fulfilled, running the protocol
    again on the same snapshot changes no sender. *)
Theorem join_protocol_outcome w status c :
  connected (node w) = true →
  platformStatus (node w) = Some status →
  client (node w) = Some c →
  ∃ w' placed es,
    joinNodes w = (Return tt, w') ∧
    joins w' = joins w ++ placed ∧
    trace w' = trace w ++ es ∧
    (∀ id, id ∈ registeredNodes (node w) →
       let supported := supported_of w id in
       (∀ apps session a,
          applications status = Some apps →
          first_session supported apps session →
          first_capability supported session a →
          (id, session, a) ∈ placed ∧
          (∀ session' a', (id, session', a') ∈ placed →
                          session' = session ∧ a' = a) ∧
          EvClient c (client_join session a) ∈ es ∧
          senders w' !! id = senders w !! id) ∧
       (no_match supported status →
          (∀ session a, (id, session, a) ∉ placed) ∧
          EvStatus id st_connected ∈ es ∧
          ¬ attached w' id) ∧
       ((∃ apps session a, applications status = Some apps ∧
                           first_session supported apps session ∧
                           first_capability supported session a)
        ∨ no_match supported status)) ∧
    (joins w = [] →
     senders (joinNodes_settled (joinNodes_settled w))
       = senders (joinNodes_settled w)).
Proof.
  intros Hcd Hps Hc.
  set (ids := elements (registeredNodes (node w))).
  destruct (loop_spec (supported_of w) status c ids w)
    as (Hn & Hsup & Hjl & Htl & Hsl); [done|].
  exists (foldl (body_on status c) w ids),
         (joins_for (supported_of w) status ids),
         (events_for (supported_of w) status c ids).
  split; [unfold joinNodes; by rewrite Hcd, Hps, (loop_on status c)|].
  split; [done|]. split; [done|]. split.
  - intros id Hin supported. subst supported.
    assert (id ∈ ids) as Hin' by by apply elem_of_elements.
    split; [|split].
    + intros apps session a Ha Hfs Hfc.
      assert (instruction (supported_of w id) status = Some (session, a)) as Hi.
      { apply instruction_join. by exists apps. }
      rewrite Hsl, decide_True, Hi by done.
      split; [by apply joins_for_entries|]. split; [|split; [|done]].
      * intros session' a' [_ Hx]%joins_for_entries.
        rewrite Hi in Hx. by injection Hx as <- <-.
      * unfold events_for. apply list_elem_of_fmap. exists id. by rewrite Hi.
    + intros Hi%instruction_unjoin. split; [|split].
      * intros session a [_ Hx]%joins_for_entries. congruence.
      * unfold events_for. apply list_elem_of_fmap. exists id. by rewrite Hi.
      * unfold attached, receiver_of, adapter_of.
        rewrite Hsl, decide_True, Hi by done.
        destruct (senders w !! id); simpl; by intros [[? ?] _].
    + destruct (instruction (supported_of w id) status) as [[s a]|] eqn:Hi.
      * left. apply instruction_join in Hi as (apps & ? & ? & ?).
        by exists apps, s, a.
      * right. by apply instruction_unjoin.
  - intros Hj.
    destruct (joinNodes_settled_spec w status c Hcd Hps Hc Hj) as (Hn1 & Hj1 & Hs1).
    destruct (joinNodes_settled_spec (joinNodes_settled w) status c)
      as (_ & _ & Hs2); [by rewrite Hn1 | by rewrite Hn1 | by rewrite Hn1 | done |].
    apply map_eq. intros id. rewrite Hs2, Hn1, Hs1.
    destruct (decide (id ∈ registeredNodes (node w))); [|done].
    destruct (senders w !! id); simpl; [|done]. by rewrite outcome_outcome.
Qed.

End JoinSettled.

(** * Concrete runs *)

Section Runs.
#[local] Existing Instance sample_lib.

Lemma reachable_run inputs w w' :
  reachable w → run inputs w = Some w' → reachable w'.
Proof.
  revert w. induction inputs as [|i inputs IH]; intros w Hw; simpl.
  - by intros [= <-].
  - destruct (handle i w) as [w1|] eqn:Hi; [|done]. simpl.
    apply IH. apply (reachable_step w); [done | by exists i].
Qed.

Lemma run_app inputs inputs' w :
  run (inputs ++ inputs') w = run inputs w ≫= run inputs'.
Proof.
  revert w. induction inputs as [|i inputs IH]; intros w; simpl; [done|].
  destruct (handle i w) as [w1|]; [apply IH | done].
Qed.

Lemma volume_zero_is_rejected_witness :
  connected (node connected_world) = true ∧
  sendPlatformCommandAsync (cmd "VOLUME" None (Some 0%Q) None) None connected_world
    = (Throw (Error "Malformed command"), connected_world).
Proof.
  split; [vm_compute; reflexivity|].
  apply (volume_zero_is_rejected connected_world None _ 0%Q);
    vm_compute; reflexivity.
Defined.

(** A volume of 50 on the same node places [setVolume({ level: 1/2 })]
    and leaves its continuation owed by client 0. *)
Example volume_fifty :
  ∃ q, sendPlatformCommandAsync (cmd "VOLUME" None (Some 50%Q) None) None
         connected_world
       = (Return [client_getStatus],
          on_chains (fun l => l ++ [0])
            (emit (EvClient 0 (client_setVolume (level q))) connected_world))
       ∧ (q == 1 # 2)%Q.
Proof.
  exists (50 / 100)%Q. split; [|reflexivity].
  apply volume_accepted; vm_compute; (reflexivity || by intros).
Qed.

Lemma media_without_status_is_rejected_witness :
  sendMediaCommandAsync (cmd "PLAY" None None None) None
      (Some {| rcv_app := DefaultMediaReceiver; rcv_session := media_session |})
    = ([receiver_getStatus], Throw (Error "not playing")).
Proof.
  apply (media_without_status_is_rejected (cmd "PLAY" None None None)).
  vm_compute. discriminate.
Defined.

Lemma pending_reconnect_survives_close_witness :
  timers retrying_world !! 0 = Some true ∧
  ∃ w2, handle (timer_fires 0) (on_close (emit EvDone) retrying_world) = Some w2 ∧
        closing (node w2) = true ∧
        connecting (node w2) = true ∧
        client (node w2) = Some 1 ∧
        EvClient 1 client_connect ∈ trace w2.
Proof.
  split; [vm_compute; reflexivity|].
  apply (pending_reconnect_survives_close retrying_world 0).
  vm_compute; reflexivity.
Defined.

(** The run behind C4: sender "a" is created, client 0 fails, "a" closes,
    the retry timer fires, and the connect of client 1 succeeds. *)
Lemma retry_outlives_last_sender_witness :
  reachable retrying_world ∧
  registeredNodes (node retrying_world) = {[ "a" ]} ∧
  timers retrying_world !! 0 = Some true ∧
  ∃ w', run [sender_created "a"; client_error 0; sender_closed "a";
             timer_fires 0; connect_resolves 1;
             status_resolves 1 (Some snapshot)] init = Some w' ∧
        connected (node w') = true ∧
        client (node w') = Some 1 ∧
        registeredNodes (node w') = ∅ ∧
        closing (node w') = false.
Proof.
  assert (reachable retrying_world) as Hr.
  { apply (reachable_run [sender_created "a"; client_error 0] init);
      [apply reachable_init | vm_compute; reflexivity]. }
  assert (registeredNodes (node retrying_world) = {[ "a" ]}) as H1
    by (vm_compute; reflexivity).
  assert (timers retrying_world !! 0 = Some true) as H2
    by (vm_compute; reflexivity).
  split; [exact Hr|]. split; [exact H1|]. split; [exact H2|].
  destruct (retry_outlives_last_sender retrying_world "a" 0 snapshot H1)
    as (w' & Hrun & H); try (vm_compute; reflexivity).
  exists w'. split; [|exact H].
  change [sender_created "a"; client_error 0; sender_closed "a";
          timer_fires 0; connect_resolves 1; status_resolves 1 (Some snapshot)]
    with ([sender_created "a"; client_error 0]
            ++ [sender_closed "a"; timer_fires 0; connect_resolves 1;
                status_resolves 1 (Some snapshot)]).
  rewrite (run_app [sender_created "a"; client_error 0]
             [sender_closed "a"; timer_fires 0; connect_resolves 1;
              status_resolves 1 (Some snapshot)] init).
  assert (run [sender_created "a"; client_error 0] init = Some retrying_world)
    as -> by (vm_compute; reflexivity).
  exact Hrun.
Defined.

Lemma connected_iff_registered_on_success_witness :
  let calls := [a_call (call_register "a"); a_call (call_settle snapshot);
                a_call (call_register "b"); a_call (call_deregister "a")] in
  no_register_after_close false calls = true ∧
  (connected (node (settle snapshot (foldl do_owner_call init calls))) = true ↔
   registeredNodes (node (settle snapshot (foldl do_owner_call init calls))) ≠ ∅ ∧
   closing (node (settle snapshot (foldl do_owner_call init calls))) = false).
Proof.
  intros calls. split; [vm_compute; reflexivity|].
  apply (connected_iff_registered_on_success calls snapshot). vm_compute; reflexivity.
Defined.

(** Both sides of the equivalence, computed: with "b" left the node is
    connected; after "b" left too, or after the node closed, it is not. *)
Example connected_while_registered :
  let run_calls calls := settle snapshot (foldl do_owner_call init calls) in
  connected (node (run_calls
    [a_call (call_register "a"); a_call (call_register "b");
     a_call (call_deregister "a")])) = true ∧
  connected (node (run_calls
    [a_call (call_register "a"); a_call (call_register "b");
     a_call (call_deregister "a"); a_call (call_deregister "b")])) = false ∧
  connected (node (run_calls
    [a_call (call_register "a"); a_call (call_settle snapshot); owner_close])) = false.
Proof. vm_compute. done. Qed.

Lemma join_protocol_outcome_witness :
  connected (node joined_world) = true ∧
  platformStatus (node joined_world) = Some snapshot ∧
  client (node joined_world) = Some 0 ∧
  joins joined_world = [] ∧
  senders (joinNodes_settled (joinNodes_settled joined_world))
    = senders (joinNodes_settled joined_world).
Proof.
  assert (connected (node joined_world) = true) as H1 by (vm_compute; reflexivity).
  assert (platformStatus (node joined_world) = Some snapshot) as H2
    by (vm_compute; reflexivity).
  assert (client (node joined_world) = Some 0) as H3 by (vm_compute; reflexivity).
  assert (joins joined_world = []) as H4 by (vm_compute; reflexivity).
  split; [done|]. split; [done|]. split; [done|]. split; [done|].
  destruct (join_protocol_outcome joined_world snapshot 0 H1 H2 H3)
    as (w' & placed & es & _ & _ & _ & _ & H).
  exact (H H4).
Defined.

(** On the joined node the sender holds the media session, second in the
    snapshot, and running the protocol again places the same join. *)
Example joined_world_attachment :
  receiver_of joined_world "a"
    = Some {| rcv_app := DefaultMediaReceiver; rcv_session := media_session |} ∧
  adapter_of joined_world "a" = Some DefaultMediaReceiverAdapter ∧
  joins (joinNodes joined_world).2 = [("a", media_session, DefaultMediaReceiver)].
Proof. vm_compute. done. Qed.

(** The SEEK gate as the claim words it fails: with bit 2 in the mask and
    [time: 0], SEEK makes no call although the command carries a time
    value. *)
Lemma seek_with_time_zero_is_skipped : ¬ seek_gate_as_claimed.
Proof.
  intros H.
  destruct (H (cmd "SEEK" None None (Some 0%Q))
              {| supportedMediaCommands := 2 |}
              {| rcv_app := DefaultMediaReceiver; rcv_session := media_session |}
              eq_refl) as [_ Hseek].
  destruct Hseek as [t Ht]; [split; [reflexivity | by eexists]|].
  vm_compute in Ht. apply list_elem_of_singleton in Ht. discriminate.
Qed.

Lemma seek_to_zero_is_skipped_witness :
  let r := {| rcv_app := DefaultMediaReceiver; rcv_session := media_session |} in
  sendMediaCommandAsync (cmd "SEEK" None None (Some 0%Q))
      (Some {| supportedMediaCommands := 2 |}) (Some r)
    = skipped ∧
  sendMediaCommandAsync (cmd "SEEK" None None (Some 30%Q))
      (Some {| supportedMediaCommands := 2 |}) (Some r)
    = executed (receiver_seek 30%Q).
Proof.
  intros r. split.
  - destruct (seek_to_zero_is_skipped (cmd "SEEK" None None (Some 0%Q))
                {| supportedMediaCommands := 2 |} (Some r) 0%Q eq_refl eq_refl)
      as [H _]; [reflexivity | exact H].
  - vm_compute. reflexivity.
Defined.

(** The gates on a mask with bit 2 only: SEEK to 30 runs, PAUSE does not. *)
Example media_gates_on_a_seek_only_mask :
  let r := {| rcv_app := DefaultMediaReceiver; rcv_session := media_session |} in
  sendMediaCommandAsync (cmd "SEEK" None None (Some 30%Q))
      (Some {| supportedMediaCommands := 3 |}) (Some r)
    = executed (receiver_seek 30%Q) ∧
  sendMediaCommandAsync (cmd "PAUSE" None None None)
      (Some {| supportedMediaCommands := 2 |}) (Some r)
    = skipped.
Proof. vm_compute. done. Qed.

(** The claim on an unknown application, as worded, fails: an unattached
    sender on a connected node, given PLAY for an application it does not
    know, gets a promise back and the launch of null has been placed on
    the client. *)
Lemma unknown_app_reaches_launch : ¬ unknown_application_as_claimed.
Proof.
  intros H.
  destruct (H connected_world "a" (cmd "PLAY" (Some "Netflix") None None))
    as [e He].
  - reflexivity.
  - intros [[r Hr] _]. vm_compute in Hr. discriminate.
  - reflexivity.
  - vm_compute in He. discriminate.
Qed.

Lemma unresolved_app_is_launched_witness :
  includes platformCommands "PLAY" = false ∧
  ¬ attached connected_world "a" ∧
  getCommandApp (cmd "PLAY" (Some "Netflix") None None) = None ∧
  sendCommandAsync "a" (cmd "PLAY" (Some "Netflix") None None) connected_world
    = (Return (launch_promise None),
       emit (EvClient 0 (client_launch None)) connected_world).
Proof.
  assert (¬ attached connected_world "a") as Hu.
  { intros [[r Hr] _]. vm_compute in Hr. discriminate. }
  split; [reflexivity|]. split; [exact Hu|]. split; [reflexivity|].
  apply (unresolved_app_is_launched connected_world "a"
           (cmd "PLAY" (Some "Netflix") None None) eq_refl Hu eq_refl);
    vm_compute; reflexivity.
Defined.

(** C8, counterexample: on a closing node, deregistering a registered
    sender still removes it from the registry. *)
Lemma deregister_while_closing_removes : ¬ deregister_closing_as_claimed.
Proof.
  intros H.
  specialize (H closing_world "a" eq_refl).
  apply (f_equal (fun w => size (registeredNodes (node w)))) in H.
  vm_compute in H. discriminate.
Qed.

Lemma deregister_completes_witness :
  ∃ w', (∀ done, deregister "a" done connected_world = done w') ∧
        connected (node w') = false ∧
        trace w' = trace connected_world ++ [EvClient 0 client_close].
Proof.
  destruct (deregister_completes connected_world "a")
    as (w' & Hdone & _ & _ & Hlast & _).
  exists w'. split; [exact Hdone|].
  destruct Hlast as (_ & Hcd & _ & Htr); try (vm_compute; reflexivity).
  split; [exact Hcd|]. apply Htr. vm_compute; reflexivity.
Defined.

Lemma teardown_on_every_exit_witness :
  connected (node connected_world) || connecting (node connected_world) = true ∧
  torn_down connected_world (disconnect connected_world).
Proof.
  split; [vm_compute; reflexivity|].
  destruct (teardown_on_every_exit connected_world) as [H _];
    [vm_compute; reflexivity | exact H].
Defined.


(** Without the assumption on [close()]: the volume request of a client
    that failed answers after the teardown, and its continuation reads a
    method of the null client. *)
Example muted_then_torn_down :
  let w := after [sender_created "a"; connect_resolves 0;
                  command_received "a" (cmd "MUTE" None None None);
                  client_error 0] in
  chains w = [] ∧ client (node w) = None ∧
  volume_fulfilled w = (Throw TypeError, w).
Proof. vm_compute. done. Qed.

(** *** Two runs end to end *)

(** A sender registers on an idle node, the connect succeeds and the
    snapshot shows no session: the sender stays unattached.  PLAY for the
    default media receiver then asks for a launch; once the launch
    fulfils, the sender is attached and the same command goes to the
    receiver, where PLAY runs whatever the mask says. *)
Example launch_then_play :
  let play := cmd "PLAY" (Some "DefaultMediaReceiver") None None in
  let w := after [sender_created "a"; connect_resolves 0;
                  status_resolves 0 (Some {| applications := Some [] |})] in
  let r := {| rcv_app := DefaultMediaReceiver; rcv_session := media_session |} in
  receiver_of w "a" = None ∧
  (sendCommandAsync "a" play w).1 = Return (launch_promise (Some DefaultMediaReceiver)) ∧
  (launch_fulfilled "a" r (Some DefaultMediaReceiver) play
     (sendCommandAsync "a" play w).2).1 = Return (media_promise r) ∧
  sendMediaCommandAsync play (Some {| supportedMediaCommands := 0 |}) (Some r)
    = executed receiver_play.
Proof. vm_compute. done. Qed.

(** The socket closes under two attached senders: both are detached and
    told "disconnected", one reconnect timer is set, and when it fires a
    connect starts on a new client. *)
Example close_then_retry :
  let w := after [sender_created "a"; sender_created "b"; connect_resolves 0;
                  status_resolves 0 (Some snapshot);
                  join_resolves 0; join_resolves 0] in
  let w1 := after [sender_created "a"; sender_created "b"; connect_resolves 0;
                   status_resolves 0 (Some snapshot);
                   join_resolves 0; join_resolves 0; client_closed 0] in
  let w2 := after [sender_created "a"; sender_created "b"; connect_resolves 0;
                   status_resolves 0 (Some snapshot);
                   join_resolves 0; join_resolves 0; client_closed 0;
                   timer_fires 0] in
  (is_Some (receiver_of w "a") ∧ is_Some (receiver_of w "b")) ∧
  (receiver_of w1 "a" = None ∧ receiver_of w1 "b" = None) ∧
  drop (length (trace w)) (trace w1)
    = [EvClient 0 client_close;
       EvStatus "a" st_connected; EvStatus "b" st_connected;
       EvStatus "a" st_disconnected; EvStatus "b" st_disconnected;
       EvSetTimeout 0] ∧
  timers w1 = [true] ∧
  (connecting (node w2) = true ∧ client (node w2) = Some 1 ∧ timers w2 = [false]).
Proof.
  vm_compute. repeat split; by eexists.
Qed.

End Runs.

(** * Further properties *)

(** ** The two vocabularies and the dispatch *)

Section Vocabulary.
Context {lib : Collaborators}.

Lemma platform_type_cases t :
  includes platformCommands t = true ↔
  t = "CLOSE" ∨ t = "GET_VOLUME" ∨ t = "GET_CAST_STATUS" ∨ t = "MUTE"
  ∨ t = "UNMUTE" ∨ t = "VOLUME".
Proof.
  unfold includes, platformCommands. simpl.
  rewrite !orb_true_iff, !String.eqb_eq. intuition discriminate.
Qed.


(** X1.  On a connected node that holds a client, a command whose type is
    not in [platformCommands] fails with "Malformed command" and places no
    call.  GET_CAST_STATUS places one status query; CLOSE stops the
    receiver it is given, or queries the status when given none; neither
    chains anything.  GET_VOLUME places [getVolume], MUTE and UNMUTE place
    [setVolume] with [muted] true and false, VOLUME with a volume in
    (0,100] places [setVolume] with that volume over 100 as level, and
    each leaves one continuation owed by the client; when that
    continuation runs next, it places the status query. *)
Theorem platform_command_outcome w c command rcv :
  connected (node w) = true →
  client (node w) = Some c →
  let placed call := on_chains (fun l => l ++ [c]) (emit (EvClient c call) w) in
  (includes platformCommands (type command) = false →
     sendPlatformCommandAsync command rcv w = (Throw (Error "Malformed command"), w)) ∧
  (type command = "GET_CAST_STATUS" →
     sendPlatformCommandAsync command rcv w
       = (Return [], emit (EvClient c client_getStatus) w)) ∧
  (type command = "CLOSE" →
     sendPlatformCommandAsync command rcv w
       = (Return [], emit (EvClient c (match rcv with
                                       | Some r => client_stop r
                                       | None => client_getStatus
                                       end)) w)) ∧
  (type command = "GET_VOLUME" →
     sendPlatformCommandAsync command rcv w
       = (Return [client_getStatus], placed client_getVolume)) ∧
  (type command = "MUTE" →
     sendPlatformCommandAsync command rcv w
       = (Return [client_getStatus], placed (client_setVolume (muted true)))) ∧
  (type command = "UNMUTE" →
     sendPlatformCommandAsync command rcv w
       = (Return [client_getStatus], placed (client_setVolume (muted false)))) ∧
  (∀ v, type command = "VOLUME" → volume command = Some v →
     (0 < v)%Q → (v <= 100)%Q →
     sendPlatformCommandAsync command rcv w
       = (Return [client_getStatus],
          placed (client_setVolume (level (v / 100)%Q)))) ∧
  (∀ call,
     handle (volume_resolves (length (chains w))) (placed call)
       = Some (emit (EvClient c client_getStatus) (emit (EvClient c call) w))).
Proof.
  intros Hcd Hc placed. subst placed.
  split; [|split; [|split; [|split; [|split; [|split; [|split]]]]]].
  - unfold includes, platformCommands. simpl. rewrite !orb_false_iff.
    intros (H1 & H2 & H3 & H4 & H5 & H6 & _).
    unfold sendPlatformCommandAsync. by rewrite Hcd, H1, H2, H3, H4, H5, H6.
  - intros Ht. unfold sendPlatformCommandAsync, bind, call_client.
    rewrite Hcd, Ht. simpl. by rewrite Hc.
  - intros Ht. unfold sendPlatformCommandAsync, bind, call_client.
    rewrite Hcd, Ht. simpl. destruct rcv; by rewrite Hc.
  - intros Ht. unfold sendPlatformCommandAsync, bind, call_client_then.
    rewrite Hcd, Ht. simpl. by rewrite Hc.
  - intros Ht. unfold sendPlatformCommandAsync, bind, call_client_then.
    rewrite Hcd, Ht. simpl. by rewrite Hc.
  - intros Ht. unfold sendPlatformCommandAsync, bind, call_client_then.
    rewrite Hcd, Ht. simpl. by rewrite Hc.
  - intros v Ht Hv Hlo Hhi. by apply volume_accepted.
  - intros call. unfold handle. simpl chains.
    rewrite bool_decide_eq_true_2 by (rewrite length_app; simpl; lia).
    unfold guard, volume_fulfilled, call_client. simpl. rewrite Hc. simpl.
    f_equal. apply world_eq; try done. simpl.
    assert (delete (length (chains w)) (chains w ++ [c]) = chains w) as ->; [|done].
    clear. induction (chains w) as [|x l IH]; simpl; [done | by f_equal].
Qed.


(** X3.  While the node is not connected, a platform command, and any
    command of an unattached sender, throws "Not connected" from the
    dispatch and changes nothing; the input handler turns that into the
    "error" badge and reports the error through [done] when the runtime
    gave one, through [node.error] otherwise. *)
Theorem dispatch_needs_connection w id p done :
  connected (node w) = false →
  includes platformCommands (type (validate p)) = true ∨ ¬ attached w id →
  sendCommandAsync id (validate p) w = (Throw (Error "Not connected"), w) ∧
  on_input id p done w =
    (input_failed (if done then done_called (Some (Error "Not connected"))
                   else node_error (Error "Not connected")),
     emit (EvStatus id st_error) w).
Proof.
  intros Hcd Hor.
  assert (sendCommandAsync id (validate p) w = (Throw (Error "Not connected"), w)) as H.
  { unfold sendCommandAsync.
    destruct (includes platformCommands (type (validate p))) eqn:Hp.
    - unfold bind, sendPlatformCommandAsync. by rewrite Hcd.
    - destruct Hor as [? | Hu]; [done|].
      unfold attached in Hu.
      destruct (receiver_of w id), (adapter_of w id);
        try (unfold bind, launchAsync; by rewrite Hcd).
      exfalso. apply Hu. split; by eexists. }
  split; [done|]. unfold on_input. by rewrite H.
Qed.

(** X4.  A payload that is null, undefined or not an object is replaced by
    GET_CAST_STATUS: on a connected node the handler places one status
    query on the client, whatever the sender is attached to. *)
Theorem input_defaults_to_status_query w id c p done :
  p = payload_nullish ∨ p = payload_not_object →
  connected (node w) = true →
  client (node w) = Some c →
  on_input id p done w =
    (input_pending (platform_promise []), emit (EvClient c client_getStatus) w).
Proof.
  intros Hp Hcd Hc.
  assert (validate p = {| type := "GET_CAST_STATUS";
                          app := Some "DefaultMediaReceiver";
                          volume := None; time := None |}) as Hv
    by (destruct Hp as [-> | ->]; done).
  unfold on_input. rewrite Hv.
  unfold sendCommandAsync, bind, sendPlatformCommandAsync. simpl.
  rewrite Hcd. simpl. unfold bind, call_client. by rewrite Hc.
Qed.

(** X5.  A command object without [app] gets "DefaultMediaReceiver": from
    an unattached sender on a connected node, such a command that is not a
    platform command asks for the launch of the default media receiver,
    never of a null application. *)
Theorem input_defaults_to_media_receiver w id c command done :
  app command = None →
  includes platformCommands (type command) = false →
  ¬ attached w id →
  connected (node w) = true →
  client (node w) = Some c →
  on_input id (payload_object command) done w =
    (input_pending (launch_promise (Some DefaultMediaReceiver)),
     emit (EvClient c (client_launch (Some DefaultMediaReceiver))) w).
Proof.
  intros Ha Hp Hu Hcd Hc. unfold on_input, validate. rewrite Ha.
  set (c' := with_app (Some "DefaultMediaReceiver") command).
  assert (sendCommandAsync id c' w =
            (Return (launch_promise (Some DefaultMediaReceiver)),
             emit (EvClient c (client_launch (Some DefaultMediaReceiver))) w)) as ->;
    [|done].
  unfold sendCommandAsync. change (type c') with (type command). rewrite Hp.
  change (getCommandApp c') with (Some DefaultMediaReceiver).
  unfold attached in Hu.
  destruct (receiver_of w id), (adapter_of w id);
    try (unfold bind, launchAsync, call_client; by rewrite Hcd, Hc).
  exfalso. apply Hu. split; by eexists.
Qed.

(** X6.  CLOSE from a sender that holds a receiver stops that receiver,
    and from any other sender it only queries the status; the dispatch
    itself leaves the sender as it was, receiver included. *)
Theorem close_command_keeps_the_receiver w id c command :
  connected (node w) = true →
  client (node w) = Some c →
  type command = "CLOSE" →
  ∃ w', sendCommandAsync id command w = (Return (platform_promise []), w') ∧
        w' = emit (EvClient c (match receiver_of w id with
                               | Some r => client_stop r
                               | None => client_getStatus
                               end)) w ∧
        senders w' = senders w.
Proof.
  intros Hcd Hc Ht. unfold sendCommandAsync.
  assert (includes platformCommands (type command) = true) as ->
    by (by rewrite Ht).
  unfold bind at 1. unfold sendPlatformCommandAsync. rewrite Hcd, Ht. simpl.
  destruct (receiver_of w id); unfold bind, call_client; rewrite Hc;
    eexists; done.
Qed.

Lemma getCommandApp_has_adapter command a :
  getCommandApp command = Some a → is_Some (getAdapter a).
Proof.
  unfold getCommandApp, getAdapter. destruct (app command) as [name|]; [|done].
  destruct (String.eqb name "DefaultMediaReceiver").
  { intros [= <-]. rewrite String.eqb_refl. by eexists. }
  destruct (String.eqb name "YouTube"); [|done].
  intros [= <-]. rewrite String.eqb_refl.
  destruct (String.eqb _ _); by eexists.
Qed.

(** X7.  The launch an unattached sender asked for has fulfilled.  When
    the application had been resolved, the sender (an object of the store)
    is now attached with the adapter of that application, is told
    "joined", and the second pass of the dispatch goes to the receiver or
    to the adapter: it never launches again.  When the application had
    not been resolved, the continuation throws a TypeError before it
    touches the sender. *)
Theorem launch_then_dispatch w id rcv command :
  includes platformCommands (type command) = false →
  is_Some (senders w !! id) →
  (∀ a, getCommandApp command = Some a →
     ∃ ad w',
       getAdapter a = Some ad ∧
       launch_fulfilled id rcv (Some a) command w =
         (Return (if includes mediaCommands (type command)
                  then media_promise (adapter_initReceiver ad rcv)
                  else app_promise ad (adapter_initReceiver ad rcv) command),
          w') ∧
       attached w' id ∧
       node w' = node w ∧
       trace w' = trace w ++ [EvStatus id st_joined]) ∧
  (getCommandApp command = None →
     launch_fulfilled id rcv (getCommandApp command) command w = (Throw TypeError, w)).
Proof.
  intros Hp [x Hx]. split.
  - intros a Ha. destruct (getCommandApp_has_adapter command a Ha) as [ad Had].
    exists ad. unfold launch_fulfilled, bind, initReceiver. rewrite Had.
    unfold sendCommandAsync. rewrite Hp.
    unfold receiver_of, adapter_of. simpl.
    rewrite !lookup_alter_eq, Hx. simpl.
    exists (emit (EvStatus id st_joined)
              (on_senders
                 (alter (with_receiver (Some (adapter_initReceiver ad rcv))) id)
                 (on_senders (alter (with_adapter (Some ad)) id) w))).
    split; [done|]. split; [by destruct (_ || _)|]. split; [|done].
    unfold attached, receiver_of, adapter_of. simpl.
    rewrite !lookup_alter_eq, Hx. simpl. split; by eexists.
  - intros ->. done.
Qed.

End Vocabulary.

(** ** Teardown, timers and the status listener *)

Section Timers.
Context {lib : Collaborators}.

Lemma cleared_length h l : length (cleared h l) = length l.
Proof. destruct h; [apply length_insert | done]. Qed.

Lemma reconnect_schedules w :
  closing (node w) = false →
  registeredNodes (node w) ≠ ∅ →
  reconnectTimeOut (node (reconnect w)) = Some (length (timers w)) ∧
  timers (reconnect w) = cleared (reconnectTimeOut (node w)) (timers w) ++ [true].
Proof.
  intros Hcl Hne. unfold reconnect. simpl. rewrite Hcl.
  assert (Nat.ltb 0 (size (registeredNodes (node w))) = true) as ->.
  { apply Nat.ltb_lt.
    assert (size (registeredNodes (node w)) ≠ 0); [|lia].
    intros Hz. by apply size_zero_empty in Hz. }
  simpl. destruct (reconnectTimeOut (node w)); simpl; [|done].
  by rewrite length_insert.
Qed.

Lemma reconnect_sets_nothing w :
  closing (node w) = true ∨ registeredNodes (node w) = ∅ →
  reconnect w = on_node (with_flags false false) w.
Proof.
  intros [Hcl | He]; unfold reconnect; simpl.
  - by rewrite Hcl.
  - rewrite He, size_empty. by rewrite andb_false_r.
Qed.

Lemma disconnect_keeps w :
  closing (node (disconnect w)) = closing (node w) ∧
  registeredNodes (node (disconnect w)) = registeredNodes (node w) ∧
  reconnectTimeOut (node (disconnect w)) = reconnectTimeOut (node w).
Proof. by rewrite disconnect_node. Qed.

Lemma chain_rejected_schedules w :
  closing (node w) = false →
  registeredNodes (node w) ≠ ∅ →
  reconnectTimeOut (node (chain_rejected w)) = Some (length (timers w)) ∧
  timers (chain_rejected w)
    = cleared (reconnectTimeOut (node w)) (timers w) ++ [true] ∧
  closing (node (chain_rejected w)) = false ∧
  registeredNodes (node (chain_rejected w)) = registeredNodes (node w) ∧
  connected (node (chain_rejected w)) = false ∧
  connecting (node (chain_rejected w)) = false.
Proof.
  intros Hcl Hne. unfold chain_rejected.
  destruct (disconnect_keeps w) as (Hcl1 & Hr1 & Hh1).
  destruct (reconnect_schedules (disconnect w)) as [Ht Htm];
    [by rewrite Hcl1 | by rewrite Hr1 |].
  destruct (reconnect_flags (disconnect w)) as [Hcd Hcg].
  destruct (reconnect_node (disconnect w)) as (Hcl2 & Hr2 & _).
  rewrite Ht, Htm, Hcl2, Hr2, Hcd, Hcg, disconnect_timers, Hh1, Hcl1, Hr1.
  done.
Qed.

(** X8.  A teardown by the "error" or "close" listener (or by the [catch]
    of the connect chain) on a node that is not closing and has a sender
    registered sets one reconnect timer and remembers it.  A second
    teardown before that timer fires (the socket's "close" after its
    "error") calls [close()] on nothing, cancels the timer of the first
    and sets a new one: of the two, only the newest stays pending, and no
    older timer is touched. *)
Theorem repeated_teardown_keeps_one_timer w :
  closing (node w) = false →
  registeredNodes (node w) ≠ ∅ →
  reconnectTimeOut (node (chain_rejected w)) = Some (length (timers w)) ∧
  timers (chain_rejected w)
    = cleared (reconnectTimeOut (node w)) (timers w) ++ [true] ∧
  close_events (chain_rejected w) = [] ∧
  reconnectTimeOut (node (chain_rejected (chain_rejected w)))
    = Some (S (length (timers w))) ∧
  timers (chain_rejected (chain_rejected w))
    = cleared (reconnectTimeOut (node w)) (timers w) ++ [false; true].
Proof.
  intros Hcl Hne.
  destruct (chain_rejected_schedules w Hcl Hne)
    as (Ht1 & Htm1 & Hcl1 & Hr1 & Hcd1 & Hcg1).
  destruct (chain_rejected_schedules (chain_rejected w))
    as (Ht2 & Htm2 & _); [done | by rewrite Hr1 |].
  split; [done|]. split; [done|].
  split; [unfold close_events; by rewrite Hcd1, Hcg1|].
  rewrite Ht2, Htm2, Ht1, Htm1.
  rewrite length_app, cleared_length. simpl.
  split; [f_equal; lia|].
  set (l := cleared (reconnectTimeOut (node w)) (timers w)).
  assert (length l = length (timers w)) as <- by apply cleared_length.
  rewrite insert_app_r_alt by lia. rewrite Nat.sub_diag. simpl.
  by rewrite <- app_assoc.
Qed.

(** X9.  On a closing node, or with no sender registered, a teardown sets
    no timer and cancels none. *)
Theorem teardown_without_retry w :
  closing (node w) = true ∨ registeredNodes (node w) = ∅ →
  timers (chain_rejected w) = timers w ∧
  reconnectTimeOut (node (chain_rejected w)) = reconnectTimeOut (node w) ∧
  ∀ t, EvSetTimeout t ∉ drop (length (trace w)) (trace (chain_rejected w)).
Proof.
  intros Hor. unfold chain_rejected.
  destruct (disconnect_keeps w) as (Hcl & Hr & Hh).
  rewrite reconnect_sets_nothing by (by rewrite Hcl, Hr).
  simpl. rewrite disconnect_timers, Hh. split; [done|]. split; [done|].
  intros t. rewrite disconnect_trace, drop_app_length.
  unfold close_events, status_events.
  intros Hin. repeat (apply elem_of_app in Hin as [Hin | Hin]).
  - destruct (_ || _); [|by apply not_elem_of_nil in Hin].
    destruct (client (node w)); [|by apply not_elem_of_nil in Hin].
    by apply list_elem_of_singleton in Hin.
  - by apply list_elem_of_fmap in Hin as (? & ? & _).
  - by apply list_elem_of_fmap in Hin as (? & ? & _).
Qed.

(** X10.  A "status" event on a node that is not connected, or carrying no
    status, still overwrites [platformStatus]; [joinNodes] then throws
    "Not connected" out of the listener, nothing is forwarded to the
    senders and no sender is joined or unjoined. *)
Theorem stale_status_event w c status w' :
  connected (node w) = false ∨ status = None →
  handle (client_status c status) w = Some w' →
  platformStatus (node w') = status ∧
  trace w' = trace w ++ [EvUncaught (Error "Not connected")] ∧
  senders w' = senders w ∧ joins w' = joins w.
Proof.
  intros Hor Hh. simpl in Hh. apply guard_Some in Hh as [_ <-].
  unfold try_catch, status_fulfilled, bind, lift, joinNodes. simpl.
  destruct Hor as [-> | ->]; [done|]. by destruct (connected (node w)).
Qed.

(** X11.  When the status query of the connect chain answers null, the
    chain's [catch] runs although the connect succeeded: the client is
    closed, every registered sender is unjoined and told "disconnected",
    and a reconnect timer is set if the node is not closing and a sender
    is registered. *)
Theorem null_status_tears_down w c w' :
  connected (node w) = true →
  handle (status_resolves c None) w = Some w' →
  torn_down w w' ∧
  (closing (node w) = false → registeredNodes (node w) ≠ ∅ →
     reconnectTimeOut (node w') = Some (length (timers w)) ∧
     timers w' !! length (timers w) = Some true).
Proof.
  intros Hcd Hh. simpl in Hh. apply guard_Some in Hh as [_ <-].
  unfold try_catch, status_fulfilled, bind, lift, joinNodes. simpl.
  rewrite Hcd. set (w0 := on_node _ _).
  split.
  - apply torn_down_reconnect. apply disconnect_torn_down; try done.
    by rewrite Hcd.
  - intros Hcl Hne. unfold chain_rejected.
    destruct (disconnect_keeps w0) as (Hcl1 & Hr1 & Hh1).
    destruct (reconnect_schedules (disconnect w0)) as [-> ->];
      [by rewrite Hcl1 | by rewrite Hr1 |].
    rewrite disconnect_timers. split; [done|].
    change (timers w0) with (timers w).
    rewrite lookup_app_r by (by rewrite cleared_length).
    by rewrite cleared_length, Nat.sub_diag.
Qed.

End Timers.

(** ** Senders coming and going *)

Section Lifecycle.
Context {lib : Collaborators}.

Lemma node_eta n : with_registeredNodes (registeredNodes n) n = n.
Proof. by destruct n. Qed.

Lemma connect_registered w :
  registeredNodes (node (connect w)) = registeredNodes (node w).
Proof.
  destruct (connected (node w) || connecting (node w)) eqn:Hfl.
  - by rewrite connect_busy.
  - apply orb_false_elim in Hfl as [Hcd Hcg].
    destruct (connect_idle w Hcd Hcg) as (-> & _). done.
Qed.

Lemma connect_connect w : connect (connect w) = connect w.
Proof.
  destruct (connected (node w) || connecting (node w)) eqn:Hfl.
  - rewrite (connect_busy w Hfl). apply (connect_busy w Hfl).
  - apply orb_false_elim in Hfl as [Hcd Hcg].
    apply connect_busy.
    destruct (connect_idle w Hcd Hcg) as (-> & _). apply orb_true_r.
Qed.

Lemma add_registered_again id w :
  id ∈ registeredNodes (node w) →
  on_node (fun n => with_registeredNodes ({[id]} ∪ registeredNodes n) n) w = w.
Proof.
  intros Hin. apply world_eq; try done. simpl.
  assert ({[id]} ∪ registeredNodes (node w) = registeredNodes (node w)) as ->.
  { apply subseteq_union_1_L. by apply singleton_subseteq_l. }
  apply node_eta.
Qed.

(** X12.  Registering a sender that is already registered.  [register]
    tests the size of the registry, not whether the sender is new.  While
    the node is connected or connecting, or while another sender is
    registered too, the call changes nothing.  When the sender is the only
    one registered and the node is idle (it waits for its retry), the
    call connects at once on a new client and forgets the handle of the
    reconnect timer, which stays pending.  Two registrations in a row do
    what one does. *)
Theorem registering_again w id :
  id ∈ registeredNodes (node w) →
  (connected (node w) || connecting (node w) = true
   ∨ registeredNodes (node w) ≠ {[id]} → register id w = w) ∧
  (connected (node w) = false → connecting (node w) = false →
   registeredNodes (node w) = {[id]} →
     register id w = connect w ∧
     connecting (node (register id w)) = true ∧
     client (node (register id w)) = Some (length (clients w)) ∧
     clients (register id w)
       = clients w ++ [with_connect_pending true new_client] ∧
     reconnectTimeOut (node (register id w)) = None ∧
     timers (register id w) = timers w) ∧
  register id (register id w) = register id w.
Proof.
  intros Hin.
  assert (register id w = if Nat.eqb (size (registeredNodes (node w))) 1
                          then connect w else w) as Hreg.
  { unfold register. rewrite add_registered_again by done. done. }
  split; [|split].
  - intros [Hb | Hne]; rewrite Hreg.
    + destruct (Nat.eqb _ 1); [by apply connect_busy | done].
    + destruct (Nat.eqb_spec (size (registeredNodes (node w))) 1) as [H1|]; [|done].
      exfalso. apply Hne. apply size_1_elem_of in H1 as [x Hx].
      unfold_leibniz. rewrite Hx in Hin |- *.
      apply elem_of_singleton in Hin. by rewrite Hin.
  - intros Hcd Hcg Hone. rewrite Hreg, Hone, size_singleton. simpl.
    destruct (connect_idle w Hcd Hcg) as (Hn & Hc & _ & Ht & _).
    rewrite Hn, Hc, Ht. done.
  - set (w1 := on_node (fun n => with_registeredNodes ({[id]} ∪ registeredNodes n) n) w).
    assert (id ∈ registeredNodes (node w1)) as Hin1.
    { simpl. apply elem_of_union. left. by apply elem_of_singleton. }
    assert (register id w = if Nat.eqb (size (registeredNodes (node w1))) 1
                            then connect w1 else w1) as -> by done.
    destruct (Nat.eqb (size (registeredNodes (node w1))) 1) eqn:Hs.
    + unfold register. rewrite add_registered_again
        by (by rewrite connect_registered).
      rewrite connect_registered, Hs. apply connect_connect.
    + unfold register. rewrite add_registered_again by done. by rewrite Hs.
Qed.

(** X13.  A sender constructed on a node that is already connected is
    registered and told "disconnected", then "connected"; no client is
    created and no join is placed, so the new sender stays unattached,
    whatever the last snapshot shows, until the next status arrives. *)
Theorem sender_created_on_connected_node w id :
  connected (node w) = true →
  let w' := CastV2SenderNode id w in
  registeredNodes (node w') = {[id]} ∪ registeredNodes (node w) ∧
  senders w' = <[id := new_sender]> (senders w) ∧
  ¬ attached w' id ∧
  clients w' = clients w ∧
  client (node w') = client (node w) ∧
  joins w' = joins w ∧
  trace w' = trace w ++ [EvStatus id st_disconnected; EvStatus id st_connected].
Proof.
  intros Hcd w'. subst w'. unfold CastV2SenderNode, register.
  set (w1 := on_node _ _).
  assert (connected (node w1) || connecting (node w1) = true) as Hb
    by (simpl; by rewrite Hcd).
  assert ((if Nat.eqb (size (registeredNodes (node w1))) 1
           then connect w1 else w1) = w1) as ->.
  { destruct (Nat.eqb _ 1); [by apply connect_busy | done]. }
  simpl. rewrite Hcd. simpl.
  split; [done|]. split; [done|]. split; [|by rewrite <- app_assoc].
  unfold attached, receiver_of. simpl. rewrite lookup_insert_eq. simpl.
  by intros [[? ?] _].
Qed.

(** X14.  When a sender closes, it is no longer registered, holds neither
    receiver nor adapter, and its [done] is the last thing called, once;
    every other sender object is left as it was. *)
Theorem sender_closed_is_detached w id :
  let w' := sender_on_close id w in
  (id ∉ registeredNodes (node w')) ∧
  receiver_of w' id = None ∧
  adapter_of w' id = None ∧
  (∀ id', id' ≠ id → senders w' !! id' = senders w !! id') ∧
  ∃ es, trace w' = trace w ++ es ++ [EvDone] ∧ EvDone ∉ es.
Proof.
  intros w'. subst w'. unfold sender_on_close, deregister.
  fold (without id w). set (w0 := without id w).
  assert (id ∉ registeredNodes (node w0)) as Hnin.
  { simpl. intros [_ Hx]%elem_of_difference. apply Hx. by apply elem_of_singleton. }
  assert (∀ m : gmap string Sender,
            (alter detach id m !! id) ≫= receiver = None ∧
            (alter detach id m !! id) ≫= adapter = None) as Hdet.
  { intros m. rewrite lookup_alter_eq. by destruct (m !! id). }
  assert (∀ w1, node w1 = node w0 → senders w1 = senders w → trace w1 = trace w →
            let w' := emit EvDone (on_senders (alter detach id) w1) in
            (id ∉ registeredNodes (node w')) ∧
            receiver_of w' id = None ∧
            adapter_of w' id = None ∧
            (∀ id', id' ≠ id → senders w' !! id' = senders w !! id') ∧
            ∃ es, trace w' = trace w ++ es ++ [EvDone] ∧ EvDone ∉ es) as Hsame.
  { intros w1 Hn Hs Ht. unfold receiver_of, adapter_of. simpl. rewrite Hn, Hs, Ht.
    split; [done|]. split; [apply Hdet|]. split; [apply Hdet|].
    split; [intros id' Hne; by rewrite lookup_alter_ne|].
    exists []. split; [done | apply not_elem_of_nil]. }
  destruct (closing (node w0)); [by apply Hsame|].
  destruct (Nat.eqb_spec (size (registeredNodes (node w0))) 0)
    as [Hz | Hnz]; [|by apply Hsame].
  apply size_zero_empty in Hz.
  destruct (connected (node w0) || connecting (node w0)); [|by apply Hsame].
  unfold receiver_of, adapter_of. cbn [node senders trace emit on_senders].
  rewrite disconnect_node, disconnect_senders, disconnect_of_empty by done.
  rewrite Hz, elements_empty. cbn [detach_all foldl].
  split; [exact Hnin|].
  split; [apply Hdet|]. split; [apply Hdet|].
  split; [intros id' Hne; by rewrite lookup_alter_ne|].
  exists (close_events w0). split; [by rewrite <- app_assoc|].
  unfold close_events. destruct (_ || _); [|apply not_elem_of_nil].
  destruct (client _); [|apply not_elem_of_nil].
  by intros ?%list_elem_of_singleton.
Qed.

(** X15.  A status that arrives on a connected node holding a client is
    forwarded to every registered sender exactly once and to nobody else,
    after all joins and unjoins it causes: the events before the forwards
    contain no forward. *)
Theorem status_is_forwarded_after_joins w c status :
  connected (node w) = true →
  client (node w) = Some c →
  ∃ w' es ids,
    status_fulfilled (Some status) w = (Return tt, w') ∧
    platformStatus (node w') = Some status ∧
    trace w' = trace w ++ es
                 ++ map (fun id => EvSend id (platform_msg (Some status))) ids ∧
    Forall (fun e => is_send e = false) es ∧
    NoDup ids ∧
    ∀ id, id ∈ ids ↔ id ∈ registeredNodes (node w).
Proof.
  intros Hcd Hc. unfold status_fulfilled, bind, lift.
  set (w0 := on_node (with_platformStatus (Some status)) w).
  set (ids := elements (registeredNodes (node w))).
  unfold joinNodes. change (connected (node w0)) with (connected (node w)).
  rewrite Hcd. change (platformStatus (node w0)) with (Some status).
  cbv beta iota. rewrite (loop_on status c) by done.
  destruct (loop_spec (supported_of w0) status c ids w0)
    as (Hn & _ & _ & Ht & _); [done|].
  change (elements (registeredNodes (node w0))) with ids.
  rewrite sendToRegisteredNodes_spec. rewrite Hn.
  change (elements (registeredNodes (node w0))) with ids.
  exists (emits (map (fun id => EvSend id (platform_msg (Some status))) ids)
            (foldl (body_on status c) w0 ids)),
         (events_for (supported_of w0) status c ids), ids.
  split; [done|]. split; [simpl; by rewrite Hn|].
  split; [simpl; rewrite Ht; by rewrite <- app_assoc|].
  split; [|split; [apply NoDup_elements | intros id; apply elem_of_elements]].
  unfold events_for. apply Forall_forall. intros e (id & -> & _)%list_elem_of_fmap.
  by destruct (instruction _ _) as [[? ?]|].
Qed.

End Lifecycle.

(** ** The client held, and the pairing of receiver and adapter *)

Section Pairing.
Context {lib : Collaborators}.

(** X16.  In every state the event loop can reach, the node holds a client
    exactly while it is connected or connecting, and it is never both: a
    teardown always drops the client, and it does so only after calling
    [close()] on it, since [disconnect] finds the node busy whenever a
    client is held. *)
Theorem client_held_exactly_while_busy w :
  reachable w →
  (is_Some (client (node w)) ↔
   connected (node w) || connecting (node w) = true) ∧
  connected (node w) && connecting (node w) = false ∧
  ∀ c, client (node w) = Some c →
       ∃ es, trace (disconnect w) = trace w ++ EvClient c client_close :: es.
Proof.
  intros Hr.
  assert (flags_ok w) as [Hiff Hex].
  { induction Hr as [|w w' _ IH [i Hi]].
    - by apply flags_ok_idle.
    - by apply (handle_flags_ok i w). }
  split; [done|]. split; [done|].
  intros c Hc. rewrite disconnect_trace. unfold close_events.
  assert (connected (node w) || connecting (node w) = true) as ->
    by (apply Hiff; by eexists).
  rewrite Hc. by eexists.
Qed.

(** *** The store of senders and the pending joins *)

Lemma store_ok_kept w w' : store_kept w w' → store_ok w → store_ok w'.
Proof. intros [Hs Hj]. unfold store_ok. by rewrite Hs, Hj. Qed.

Lemma store_kept_trans w1 w2 w3 :
  store_kept w1 w2 → store_kept w2 w3 → store_kept w1 w3.
Proof. intros [? ?] [? ?]. split; congruence. Qed.

Lemma sender_ok_detach x : sender_ok x → sender_ok (detach x).
Proof.
  intros [Hs _]. split; [done|]. unfold paired. simpl.
  split; by intros [? ?].
Qed.

Lemma sender_ok_new : sender_ok new_sender.
Proof. split; [done|]. unfold paired. simpl. split; by intros [? ?]. Qed.

Lemma senders_ok_alter f id (m : gmap string Sender) :
  (∀ x, sender_ok x → sender_ok (f x)) →
  map_Forall (fun _ => sender_ok) m →
  map_Forall (fun _ => sender_ok) (alter f id m).
Proof.
  intros Hf Hm i x. destruct (decide (id = i)) as [-> | Hne].
  - rewrite lookup_alter_eq. destruct (m !! i) as [y|] eqn:Hy; [|done].
    simpl. intros [= <-]. by apply Hf, (Hm i).
  - rewrite lookup_alter_ne by done. apply Hm.
Qed.

Lemma senders_ok_detach_all ids (m : gmap string Sender) :
  map_Forall (fun _ => sender_ok) m →
  map_Forall (fun _ => sender_ok) (detach_all ids m).
Proof.
  revert m. induction ids as [|i ids IH]; intros m Hm; [done|].
  apply IH. apply senders_ok_alter; [apply sender_ok_detach | done].
Qed.

Lemma supported_has_adapter a :
  a ∈ [DefaultMediaReceiver; YouTubeReceiver] → is_Some (getAdapter a).
Proof.
  unfold getAdapter.
  intros [-> | [-> | Hn]%elem_of_cons]%elem_of_cons.
  - rewrite String.eqb_refl. by eexists.
  - rewrite String.eqb_refl. destruct (String.eqb _ _); by eexists.
  - by apply not_elem_of_nil in Hn.
Qed.

Lemma found_is_supported w id s a :
  store_ok w →
  find_castV2App (supported_of w id) (Some s) = Some a →
  is_Some (getAdapter a).
Proof.
  intros [Hm _]. unfold find_castV2App, supported_of.
  destruct (senders w !! id) as [x|] eqn:Hx; simpl; [|done].
  destruct (Hm id x Hx) as [-> _].
  intros (before & after & Hl & _)%find_first.
  apply supported_has_adapter. rewrite Hl.
  apply elem_of_app. right. apply list_elem_of_here.
Qed.

Lemma disconnect_store_ok w : store_ok w → store_ok (disconnect w).
Proof.
  intros [Hm Hj]. unfold store_ok.
  rewrite disconnect_senders, disconnect_joins.
  split; [by apply senders_ok_detach_all | done].
Qed.

Lemma reconnect_store_kept w : store_kept w (reconnect w).
Proof. destruct (reconnect_frame w) as (Hs & _ & Hj & _). by split. Qed.

Lemma chain_rejected_store_ok w : store_ok w → store_ok (chain_rejected w).
Proof.
  intros H. unfold chain_rejected.
  eapply store_ok_kept; [apply reconnect_store_kept|].
  by apply disconnect_store_ok.
Qed.

Lemma connect_store_kept w : store_kept w (connect w).
Proof.
  destruct (connected (node w)) eqn:Hcd.
  { rewrite connect_busy; [done | by rewrite Hcd]. }
  destruct (connecting (node w)) eqn:Hcg.
  { rewrite connect_busy; [done | by rewrite Hcd, Hcg]. }
  destruct (connect_idle w Hcd Hcg) as (_ & _ & Hs & _ & Hj & _). by split.
Qed.

Lemma register_store_kept id w : store_kept w (register id w).
Proof.
  unfold register. set (w1 := on_node _ w).
  destruct (Nat.eqb _ 1); [|done].
  apply (store_kept_trans w w1); [done | apply connect_store_kept].
Qed.

Lemma call_client_store_kept call w : store_kept w (call_client call w).2.
Proof. unfold call_client. by destruct (client (node w)). Qed.

Lemma launchAsync_store_kept a w : store_kept w (launchAsync a w).2.
Proof.
  unfold launchAsync.
  destruct (negb (connected (node w))); [done | apply call_client_store_kept].
Qed.

Lemma joinSessionAsync_store_kept s a w :
  store_kept w (joinSessionAsync s a w).2.
Proof.
  unfold joinSessionAsync.
  destruct (negb (connected (node w))); [done | apply call_client_store_kept].
Qed.

Lemma sendPlatformCommandAsync_store_kept command rcv w :
  store_kept w (sendPlatformCommandAsync command rcv w).2.
Proof.
  assert (∀ call (l : list ClientCall),
            store_kept w ((call_client call ;;; ret l) w).2) as Hc.
  { intros call l. unfold bind, ret.
    pose proof (call_client_store_kept call w) as H.
    by destruct (call_client call w) as [[[]|e] w1]. }
  assert (∀ call (l : list ClientCall),
            store_kept w ((call_client_then call ;;; ret l) w).2) as Hc'.
  { intros call l. unfold bind, ret, call_client_then.
    by destruct (client (node w)). }
  unfold sendPlatformCommandAsync.
  repeat match goal with
         | |- context [if ?b then _ else _] => destruct b
         | |- context [match ?r with Some _ => _ | None => _ end] => destruct r
         end; first [done | apply Hc | apply Hc'].
Qed.

Lemma sendCommandAsync_store_kept id command w :
  store_kept w (sendCommandAsync id command w).2.
Proof.
  unfold sendCommandAsync.
  destruct (includes platformCommands (type command)).
  - unfold bind, ret.
    pose proof (sendPlatformCommandAsync_store_kept command (receiver_of w id) w) as H.
    by destruct (sendPlatformCommandAsync _ _ w) as [[l|e] w1].
  - assert (store_kept w ((launchAsync (getCommandApp command)
                             ;;; ret (launch_promise (getCommandApp command))) w).2).
    { unfold bind, ret.
      pose proof (launchAsync_store_kept (getCommandApp command) w) as H.
      by destruct (launchAsync _ w) as [[[]|e] w1]. }
    destruct (receiver_of w id), (adapter_of w id); try done.
    by destruct (includes mediaCommands (type command)).
Qed.

Lemma initReceiver_store_ok id rcv a w :
  (∀ a', a = Some a' → is_Some (getAdapter a')) →
  store_ok w → store_ok (initReceiver id rcv a w).2.
Proof.
  intros Ha [Hm Hj]. unfold initReceiver.
  destruct a as [a|]; [|done].
  destruct (Ha a eq_refl) as [ad ->]. simpl.
  split; [|done]. simpl. rewrite alter_alter_eq.
  apply senders_ok_alter; [|done].
  intros x [Hs _]. split; [done|]. unfold paired. simpl.
  split; intros _; by eexists.
Qed.

Lemma join_fulfilled_store_ok id s a w :
  is_Some (getAdapter a) → store_ok w → store_ok (join_fulfilled id s a w).
Proof.
  intros Ha H. unfold join_fulfilled, try_catch.
  pose proof (initReceiver_store_ok id {| rcv_app := a; rcv_session := s |}
                (Some a) w) as Hi.
  destruct (initReceiver _ _ _ w) as [[[]|e] w1]; simpl in Hi.
  - apply Hi; [by intros ? [= <-] | done].
  - apply (store_ok_kept w1); [done|].
    apply Hi; [by intros ? [= <-] | done].
Qed.

Lemma joinNodes_body_store_ok status id w :
  store_ok w → store_ok (joinNodes_body status id w).2.
Proof.
  intros H. unfold joinNodes_body.
  destruct (find_activeSession _ _) as [s|] eqn:Hs; cycle 1.
  { destruct H as [Hm Hj]. split; [|done].
    apply senders_ok_alter; [apply sender_ok_detach | done]. }
  destruct (find_castV2App _ _) as [a|] eqn:Ha; cycle 1.
  { destruct H as [Hm Hj]. split; [|done].
    apply senders_ok_alter; [apply sender_ok_detach | done]. }
  apply (found_is_supported w id s a H) in Ha.
  unfold join, bind, lift.
  pose proof (joinSessionAsync_store_kept s a w) as [Hks Hkj].
  destruct (joinSessionAsync s a w) as [[[]|e] w1]; simpl in *.
  - destruct H as [Hm Hj]. unfold store_ok. simpl. rewrite Hks, Hkj.
    split; [done|]. apply Forall_app. split; [done|]. by apply Forall_singleton.
  - apply (store_ok_kept w); [by split | done].
Qed.

Lemma for_each_keeps (P : World → Prop) body ids :
  (∀ id w, P w → P (body id w).2) →
  ∀ w, P w → P (for_each body ids w).2.
Proof.
  intros Hb. induction ids as [|id ids IH]; intros w Hw; simpl; [done|].
  unfold bind. specialize (Hb id w Hw).
  destruct (body id w) as [[[]|e] w1]; simpl in *; [by apply IH | done].
Qed.

Lemma joinNodes_store_ok w : store_ok w → store_ok (joinNodes w).2.
Proof.
  intros H. unfold joinNodes.
  destruct (connected (node w)); [|done].
  destruct (platformStatus (node w)) as [status|]; [|done].
  apply for_each_keeps; [|done].
  intros id w0. apply joinNodes_body_store_ok.
Qed.

Lemma status_fulfilled_store_ok status w :
  store_ok w → store_ok (status_fulfilled status w).2.
Proof.
  intros H. unfold status_fulfilled, bind, lift.
  set (w0 := on_node (with_platformStatus status) w).
  pose proof (joinNodes_store_ok w0 H) as Hj.
  destruct (joinNodes w0) as [[[]|e] w1]; simpl in *; [|done].
  by rewrite sendToRegisteredNodes_spec.
Qed.

Lemma handle_store_ok i w w' :
  from_dispatch i → handle i w = Some w' → store_ok w → store_ok w'.
Proof.
  intros Hfd Hh H. destruct i; simpl in Hh.
  - (* sender_created *)
    injection Hh as <-. unfold CastV2SenderNode.
    set (w1 := emit _ _). set (w2 := register id w1).
    assert (store_ok w1) as H1.
    { destruct H as [Hm Hj]. split; [|done]. simpl.
      apply map_Forall_insert_2; [apply sender_ok_new | done]. }
    assert (store_ok w2) as H2.
    { eapply store_ok_kept; [apply register_store_kept | done]. }
    by destruct (connected (node w2)).
  - (* sender_closed *)
    injection Hh as <-. unfold sender_on_close, deregister.
    set (w1 := on_node _ w).
    assert (∀ w0, store_ok w0 →
              store_ok (emit EvDone (on_senders (alter detach id) w0))) as Hd.
    { intros w0 [Hm Hj]. split; [|done].
      apply senders_ok_alter; [apply sender_ok_detach | done]. }
    destruct (closing (node w1)); [by apply Hd|]. apply Hd.
    destruct (Nat.eqb _ 0); [|done].
    destruct (connected (node w1) || connecting (node w1)); [|done].
    by apply disconnect_store_ok.
  - (* node_closed *)
    injection Hh as <-. unfold on_close.
    apply (store_ok_kept (disconnect (on_node (with_closing true) w)));
      [done | by apply disconnect_store_ok].
  - (* timer_fires *)
    apply guard_Some in Hh as [_ <-].
    eapply store_ok_kept; [apply connect_store_kept | done].
  - (* client_error *)
    apply guard_Some in Hh as [_ <-]. by apply chain_rejected_store_ok.
  - (* client_closed *)
    apply guard_Some in Hh as [_ <-]. by apply chain_rejected_store_ok.
  - (* client_status *)
    apply guard_Some in Hh as [_ <-]. unfold try_catch.
    pose proof (status_fulfilled_store_ok status w H) as Hs.
    by destruct (status_fulfilled status w) as [[[]|e] w1].
  - (* connect_resolves *)
    apply guard_Some in Hh as [_ <-].
    unfold try_catch, connect_fulfilled, bind, lift.
    rewrite setStatusOfRegisteredNodes_spec. simpl.
    destruct (client (node w)); [done | by apply chain_rejected_store_ok].
  - (* connect_rejects *)
    apply guard_Some in Hh as [_ <-]. by apply chain_rejected_store_ok.
  - (* status_resolves *)
    apply guard_Some in Hh as [_ <-]. unfold try_catch.
    set (w0 := on_client c (with_status_pending false) w).
    pose proof (status_fulfilled_store_ok status w0 H) as Hs.
    destruct (status_fulfilled status w0) as [[[]|e] w1]; [done|].
    by apply chain_rejected_store_ok.
  - (* status_rejects *)
    apply guard_Some in Hh as [_ <-]. by apply chain_rejected_store_ok.
  - (* join_resolves *)
    destruct (joins w !! k) as [[[id s] a]|] eqn:Hk; [|done]. injection Hh as <-.
    destruct H as [Hm Hj].
    apply join_fulfilled_store_ok.
    + by apply (Forall_lookup_1 _ _ _ _ Hj Hk).
    + split; [done|]. by apply Forall_delete.
  - (* command_received *)
    injection Hh as <-.
    eapply store_ok_kept; [apply sendCommandAsync_store_kept | done].
  - (* launch_resolves *)
    injection Hh as <-. simpl in Hfd. subst castV2App.
    unfold launch_fulfilled, bind.
    pose proof (initReceiver_store_ok id rcv (getCommandApp command) w) as Hi.
    destruct (initReceiver _ _ _ w) as [[[]|e] w1]; simpl in Hi.
    + eapply store_ok_kept; [apply sendCommandAsync_store_kept|].
      apply Hi; [apply getCommandApp_has_adapter | done].
    + apply Hi; [apply getCommandApp_has_adapter | done].
  - (* receiver_status *)
    by injection Hh as <-.
  - (* receiver_closed *)
    injection Hh as <-. destruct H as [Hm Hj]. split; [|done].
    apply senders_ok_alter; [apply sender_ok_detach | done].
  - (* volume_resolves *)
    apply guard_Some in Hh as [_ <-].
    eapply store_ok_kept; [apply call_client_store_kept | done].
  - (* volume_rejects *)
    by apply guard_Some in Hh as [_ <-].
Qed.

Lemma run_store_ok inputs w w' :
  Forall from_dispatch inputs → run inputs w = Some w' →
  store_ok w → store_ok w'.
Proof.
  revert w. induction inputs as [|i inputs IH]; intros w Hf; simpl.
  - by intros [= <-].
  - apply Forall_cons in Hf as [Hi Hf].
    destruct (handle i w) as [w1|] eqn:Hh; [|done]. simpl.
    intros Hr H. apply (IH w1 Hf Hr). by apply (handle_store_ok i w).
Qed.

(** X17.  Along every run in which the completion of a launch carries the
    application its dispatch asked for, each sender holds a receiver and
    an adapter, or neither: [initReceiver] never leaves an adapter without
    a receiver behind, because every application it is given (by a join or
    by a launch that resolved) has an adapter.  For the same reason no
    join left pending can throw when it completes. *)
Theorem receiver_and_adapter_go_together inputs w :
  Forall from_dispatch inputs →
  run inputs init = Some w →
  (∀ id, is_Some (receiver_of w id) ↔ is_Some (adapter_of w id)) ∧
  ∀ k id s a, joins w !! k = Some (id, s, a) →
    ∃ w', initReceiver id {| rcv_app := a; rcv_session := s |} (Some a) w
            = (Return tt, w').
Proof.
  intros Hf Hr.
  assert (store_ok w) as [Hm Hj].
  { apply (run_store_ok inputs init w Hf Hr). split; [|done].
    apply map_Forall_empty. }
  split.
  - intros id. unfold receiver_of, adapter_of.
    destruct (senders w !! id) as [x|] eqn:Hx; simpl.
    + by destruct (Hm id x Hx) as [_ Hp].
    + split; by intros [? ?].
  - intros k id s a Hk.
    pose proof (Forall_lookup_1 _ _ _ _ Hj Hk) as [ad Had]. simpl in Had.
    unfold initReceiver. rewrite Had. by eexists.
Qed.

End Pairing.

(** * Further concrete runs *)

Section FurtherRuns.
#[local] Existing Instance sample_lib.

Lemma platform_command_outcome_witness :
  connected (node connected_world) = true ∧
  client (node connected_world) = Some 0 ∧
  sendPlatformCommandAsync (cmd "MUTE" None None None) None connected_world
    = (Return [client_getStatus],
       on_chains (fun l => l ++ [0])
         (emit (EvClient 0 (client_setVolume (muted true))) connected_world)) ∧
  handle (volume_resolves 0)
      (sendPlatformCommandAsync (cmd "MUTE" None None None) None connected_world).2
    = Some (emit (EvClient 0 client_getStatus)
              (emit (EvClient 0 (client_setVolume (muted true))) connected_world)) ∧
  sendPlatformCommandAsync (cmd "PLAY" None None None) None connected_world
    = (Throw (Error "Malformed command"), connected_world).
Proof.
  assert (connected (node connected_world) = true) as H1
    by (vm_compute; reflexivity).
  assert (client (node connected_world) = Some 0) as H2
    by (vm_compute; reflexivity).
  split; [exact H1|]. split; [exact H2|].
  destruct (platform_command_outcome connected_world 0
              (cmd "MUTE" None None None) None H1 H2)
    as (_ & _ & _ & _ & Hmute & _ & _ & Hchain).
  destruct (platform_command_outcome connected_world 0
              (cmd "PLAY" None None None) None H1 H2) as [Hplay _].
  split; [exact (Hmute eq_refl)|].
  split; [rewrite (Hmute eq_refl); exact (Hchain (client_setVolume (muted true)))|].
  apply Hplay. vm_compute; reflexivity.
Defined.


Lemma dispatch_needs_connection_witness :
  connected (node retrying_world) = false ∧
  on_input "a" payload_nullish true retrying_world =
    (input_failed (done_called (Some (Error "Not connected"))),
     emit (EvStatus "a" st_error) retrying_world).
Proof.
  assert (connected (node retrying_world) = false) as H1
    by (vm_compute; reflexivity).
  split; [exact H1|].
  destruct (dispatch_needs_connection retrying_world "a" payload_nullish true H1)
    as [_ H]; [left; vm_compute; reflexivity | exact H].
Defined.

Lemma input_defaults_to_status_query_witness :
  connected (node connected_world) = true ∧
  client (node connected_world) = Some 0 ∧
  on_input "a" payload_not_object false connected_world =
    (input_pending (platform_promise []),
     emit (EvClient 0 client_getStatus) connected_world).
Proof.
  split; [vm_compute; reflexivity|]. split; [vm_compute; reflexivity|].
  apply (input_defaults_to_status_query connected_world "a" 0
           payload_not_object false);
    [by right | vm_compute; reflexivity | vm_compute; reflexivity].
Defined.

Lemma input_defaults_to_media_receiver_witness :
  ¬ attached connected_world "a" ∧
  on_input "a" (payload_object (cmd "PLAY" None None None)) true connected_world =
    (input_pending (launch_promise (Some DefaultMediaReceiver)),
     emit (EvClient 0 (client_launch (Some DefaultMediaReceiver))) connected_world).
Proof.
  assert (¬ attached connected_world "a") as Hu.
  { intros [[r Hr] _]. vm_compute in Hr. discriminate. }
  split; [exact Hu|].
  apply (input_defaults_to_media_receiver connected_world "a" 0
           (cmd "PLAY" None None None) true eq_refl);
    [vm_compute; reflexivity | exact Hu
    | vm_compute; reflexivity | vm_compute; reflexivity].
Defined.

Lemma close_command_keeps_the_receiver_witness :
  connected (node joined_world) = true ∧
  client (node joined_world) = Some 0 ∧
  ∃ w', sendCommandAsync "a" (cmd "CLOSE" None None None) joined_world
          = (Return (platform_promise []), w') ∧
        senders w' = senders joined_world.
Proof.
  assert (connected (node joined_world) = true) as H1
    by (vm_compute; reflexivity).
  assert (client (node joined_world) = Some 0) as H2
    by (vm_compute; reflexivity).
  split; [exact H1|]. split; [exact H2|].
  destruct (close_command_keeps_the_receiver joined_world "a" 0
              (cmd "CLOSE" None None None) H1 H2 eq_refl)
    as (w' & Hs & _ & Hk).
  exists w'. split; [exact Hs | exact Hk].
Defined.

Lemma launch_then_dispatch_witness :
  let play := cmd "PLAY" (Some "DefaultMediaReceiver") None None in
  let r := {| rcv_app := DefaultMediaReceiver; rcv_session := media_session |} in
  includes platformCommands (type play) = false ∧
  is_Some (senders connected_world !! "a") ∧
  ∃ w', (launch_fulfilled "a" r (Some DefaultMediaReceiver) play connected_world).1
          = Return (media_promise r) ∧
        w' = (launch_fulfilled "a" r (Some DefaultMediaReceiver) play
                connected_world).2 ∧
        attached w' "a".
Proof.
  intros play r.
  assert (includes platformCommands (type play) = false) as H1
    by (vm_compute; reflexivity).
  assert (is_Some (senders connected_world !! "a")) as H2
    by (vm_compute; by eexists).
  split; [exact H1|]. split; [exact H2|].
  destruct (launch_then_dispatch connected_world "a" r play H1 H2) as [H _].
  destruct (H DefaultMediaReceiver eq_refl) as (ad & w' & _ & Hl & Hat & _).
  exists w'. rewrite Hl. split; [vm_compute; reflexivity|].
  split; [reflexivity | exact Hat].
Defined.

Lemma repeated_teardown_keeps_one_timer_witness :
  closing (node connected_world) = false ∧
  registeredNodes (node connected_world) ≠ ∅ ∧
  timers (chain_rejected (chain_rejected connected_world)) = [false; true].
Proof.
  assert (closing (node connected_world) = false) as H1
    by (vm_compute; reflexivity).
  assert (registeredNodes (node connected_world) ≠ ∅) as H2.
  { intros H. apply (f_equal size) in H. vm_compute in H. discriminate. }
  split; [exact H1|]. split; [exact H2|].
  destruct (repeated_teardown_keeps_one_timer connected_world H1 H2)
    as (_ & _ & _ & _ & H).
  rewrite H. vm_compute; reflexivity.
Defined.

Lemma teardown_without_retry_witness :
  closing (node closing_world) = true ∧
  timers (chain_rejected closing_world) = timers closing_world.
Proof.
  assert (closing (node closing_world) = true) as H1
    by (vm_compute; reflexivity).
  split; [exact H1|].
  destruct (teardown_without_retry closing_world (or_introl H1)) as [H _].
  exact H.
Defined.

Lemma stale_status_event_witness :
  let w' := after [sender_created "a"; client_error 0;
                   client_status 0 (Some snapshot)] in
  connected (node retrying_world) = false ∧
  handle (client_status 0 (Some snapshot)) retrying_world = Some w' ∧
  platformStatus (node w') = Some snapshot ∧
  trace w' = trace retrying_world ++ [EvUncaught (Error "Not connected")].
Proof.
  intros w'.
  assert (connected (node retrying_world) = false) as H1
    by (vm_compute; reflexivity).
  assert (handle (client_status 0 (Some snapshot)) retrying_world = Some w') as H2
    by (vm_compute; reflexivity).
  split; [exact H1|]. split; [exact H2|].
  destruct (stale_status_event retrying_world 0 (Some snapshot) w'
              (or_introl H1) H2) as (Hp & Ht & _).
  split; [exact Hp | exact Ht].
Defined.

Lemma null_status_tears_down_witness :
  let w' := after [sender_created "a"; connect_resolves 0;
                   status_resolves 0 None] in
  connected (node connected_world) = true ∧
  handle (status_resolves 0 None) connected_world = Some w' ∧
  torn_down connected_world w' ∧
  reconnectTimeOut (node w') = Some 0.
Proof.
  intros w'.
  assert (connected (node connected_world) = true) as H1
    by (vm_compute; reflexivity).
  assert (handle (status_resolves 0 None) connected_world = Some w') as H2
    by (vm_compute; reflexivity).
  split; [exact H1|]. split; [exact H2|].
  destruct (null_status_tears_down connected_world 0 w' H1 H2) as [Ht Hr].
  split; [exact Ht|].
  destruct Hr as [Hr _]; [vm_compute; reflexivity | | exact Hr].
  intros H. apply (f_equal size) in H. vm_compute in H. discriminate.
Defined.

Lemma registering_again_witness :
  "a" ∈ registeredNodes (node retrying_world) ∧
  timers retrying_world !! 0 = Some true ∧
  client (node (register "a" retrying_world)) = Some 1 ∧
  reconnectTimeOut (node (register "a" retrying_world)) = None ∧
  timers (register "a" retrying_world) = timers retrying_world.
Proof.
  assert ("a" ∈ registeredNodes (node retrying_world)) as H1.
  { assert (registeredNodes (node retrying_world) = {[ "a" ]}) as ->
      by (vm_compute; reflexivity).
    by apply elem_of_singleton. }
  split; [exact H1|]. split; [vm_compute; reflexivity|].
  destruct (registering_again retrying_world "a" H1) as (_ & H & _).
  destruct H as (_ & _ & Hc & _ & Ht & Htm); try (vm_compute; reflexivity).
  split; [exact Hc|]. split; [exact Ht | exact Htm].
Defined.

Lemma sender_created_on_connected_node_witness :
  connected (node connected_world) = true ∧
  ¬ attached (CastV2SenderNode "b" connected_world) "b" ∧
  trace (CastV2SenderNode "b" connected_world)
    = trace connected_world
        ++ [EvStatus "b" st_disconnected; EvStatus "b" st_connected].
Proof.
  assert (connected (node connected_world) = true) as H1
    by (vm_compute; reflexivity).
  split; [exact H1|].
  destruct (sender_created_on_connected_node connected_world "b" H1)
    as (_ & _ & Hu & _ & _ & _ & Ht).
  split; [exact Hu | exact Ht].
Defined.

Lemma status_is_forwarded_after_joins_witness :
  connected (node connected_world) = true ∧
  client (node connected_world) = Some 0 ∧
  ∃ w' es ids,
    status_fulfilled (Some snapshot) connected_world = (Return tt, w') ∧
    trace w' = trace connected_world ++ es
                 ++ map (fun id => EvSend id (platform_msg (Some snapshot))) ids ∧
    Forall (fun e => is_send e = false) es.
Proof.
  assert (connected (node connected_world) = true) as H1
    by (vm_compute; reflexivity).
  assert (client (node connected_world) = Some 0) as H2
    by (vm_compute; reflexivity).
  split; [exact H1|]. split; [exact H2|].
  destruct (status_is_forwarded_after_joins connected_world 0 snapshot H1 H2)
    as (w' & es & ids & Hs & _ & Ht & Hes & _).
  exists w', es, ids. split; [exact Hs|]. split; [exact Ht | exact Hes].
Defined.

Lemma client_held_exactly_while_busy_witness :
  reachable retrying_world ∧
  (is_Some (client (node retrying_world)) ↔
   connected (node retrying_world) || connecting (node retrying_world) = true).
Proof.
  assert (reachable retrying_world) as Hr.
  { apply (reachable_run [sender_created "a"; client_error 0] init);
      [apply reachable_init | vm_compute; reflexivity]. }
  split; [exact Hr|].
  destruct (client_held_exactly_while_busy retrying_world Hr) as [H _].
  exact H.
Defined.

Lemma receiver_and_adapter_go_together_witness :
  let play := cmd "PLAY" (Some "YouTube") None None in
  let r := {| rcv_app := YouTubeReceiver; rcv_session := media_session |} in
  let inputs := [sender_created "a"; connect_resolves 0;
                 status_resolves 0 (Some snapshot);
                 command_received "a" play;
                 launch_resolves "a" r (Some YouTubeReceiver) play;
                 sender_created "b"; client_status 0 (Some snapshot)] in
  Forall from_dispatch inputs ∧
  run inputs init = Some (after inputs) ∧
  ∀ id, is_Some (receiver_of (after inputs) id)
        ↔ is_Some (adapter_of (after inputs) id).
Proof.
  intros play r inputs.
  assert (Forall from_dispatch inputs) as H1 by (repeat constructor).
  assert (run inputs init = Some (after inputs)) as H2
    by (vm_compute; reflexivity).
  split; [exact H1|]. split; [exact H2|].
  destruct (receiver_and_adapter_go_together inputs (after inputs) H1 H2)
    as [H _].
  exact H.
Defined.

End FurtherRuns.
